(** * token_pricer: a shallow embedding of [main.py] and its specification

    The program walks a file or a directory tree, keeps the files whose
    suffix is in an extension list and whose size is within a threshold,
    counts their tokens with an external tokenizer, and prints totals with
    a cost estimate.

    The embedding follows the source function by function.  The filesystem
    and the standard output are explicit: a run is a function from the
    state of the world to an outcome, either a normal return or an uncaught
    exception, and both carry the world as the run left it. *)

From Stdlib Require Import ZArith List String Ascii Bool Lia.
From Stdlib Require Import Sorting.Permutation.
From Stdlib Require Import Numbers.DecimalString.
From Stdlib Require Import Floats.SpecFloat.
Import ListNotations.

Local Open Scope string_scope.
Local Open Scope Z_scope.

(** ** Python strings *)

Module Str.

(** [s.startswith(p)] for a one-character prefix. *)
Definition startswith (c : ascii) (s : string) : bool :=
  match s with
  | String a _ => Ascii.eqb a c
  | EmptyString => false
  end.

(** [s.split(sep)] for a one-character separator: never an empty list,
    the empty string gives one empty field. *)
Fixpoint split (sep : ascii) (s : string) : list string :=
  match s with
  | EmptyString => [EmptyString]
  | String a s' =>
      if Ascii.eqb a sep then EmptyString :: split sep s'
      else match split sep s' with
           | w :: ws => String a w :: ws
           | [] => [String a EmptyString]
           end
  end.

(** [sep.join(l)]. *)
Definition join (sep : string) (l : list string) : string :=
  String.concat sep l.

(** [s.rfind(c)]: the highest index of [c] in [s], or -1. *)
Fixpoint rfind (c : ascii) (s : string) : Z :=
  match s with
  | EmptyString => -1
  | String a s' =>
      let i := rfind c s' in
      if 0 <=? i then i + 1
      else if Ascii.eqb a c then 0 else -1
  end.

Definition len (s : string) : Z := Z.of_nat (String.length s).

(** [s[i:]] for [0 <= i]. *)
Definition slice_from (i : Z) (s : string) : string :=
  String.substring (Z.to_nat i) (String.length s - Z.to_nat i) s.

(** Membership in a list of strings, Python's [x in l]: equality of
    strings is exact, character by character. *)
Definition mem (x : string) (l : list string) : bool :=
  existsb (String.eqb x) l.

End Str.

(** ** Formatting of numbers *)

Module Fmt.

(** [str(n)] for an integer. *)
Definition decimal (n : Z) : string :=
  NilZero.string_of_int (Z.to_int n).

(** A comma before every group of three digits counted from the right. *)
Fixpoint insert_commas (digits : string) : string :=
  match digits with
  | EmptyString => EmptyString
  | String c rest =>
      String c
        (if andb (0 <? Str.len rest) (Str.len rest mod 3 =? 0)
         then String "," (insert_commas rest)
         else insert_commas rest)
  end.

(** The format specification [{n:,}] on an integer. *)
Definition thousands (n : Z) : string :=
  if n <? 0 then "-" ++ insert_commas (decimal (- n))
  else insert_commas (decimal n).

(** *** Python floats: IEEE 754 binary64 *)

Definition prec : Z := 53.
Definition emax : Z := 1024.

(** An integer as an exact, unrounded binary number. *)
Definition exact (n : Z) : spec_float :=
  match n with
  | Z0 => S754_zero false
  | Zpos p => S754_finite false p 0
  | Zneg p => S754_finite true p 0
  end.

(** [a / b] on two integers: the quotient rounded once to the nearest
    float, ties to even.  (Division by zero raises in Python; the only
    divisor in the program is the constant 1_000_000.) *)
Definition int_truediv (a b : Z) : spec_float :=
  SFdiv prec emax (exact a) (exact b).

(** [x * n] for a float [x] and an integer [n]. *)
Definition float_mul_int (x : spec_float) (n : Z) : spec_float :=
  SFmul prec emax x (exact n).

(** [m * 2^e * 100] rounded to the nearest integer, ties to even. *)
Definition cents (m : positive) (e : Z) : Z :=
  if 0 <=? e then Zpos m * 2 ^ e * 100
  else
    let num := Zpos m * 100 in
    let den := 2 ^ (- e) in
    let q := num / den in
    let r := num mod den in
    match 2 * r ?= den with
    | Lt => q
    | Gt => q + 1
    | Eq => if Z.even q then q else q + 1
    end.

Definition two_digits (n : Z) : string :=
  if n <? 10 then "0" ++ decimal n else decimal n.

Definition sign_prefix (s : bool) : string := if s then "-" else "".

(** The format specification [{x:.2f}]: the exact value of the float
    rounded to two decimals. *)
Definition fixed2 (x : spec_float) : string :=
  match x with
  | S754_zero s => sign_prefix s ++ "0.00"
  | S754_infinity s => sign_prefix s ++ "inf"
  | S754_nan => "nan"
  | S754_finite s m e =>
      let c := cents m e in
      sign_prefix s ++ decimal (c / 100) ++ "." ++ two_digits (c mod 100)
  end.

End Fmt.

(** ** Paths (pathlib) *)

(** A POSIX path is the list of its parts, the root [/] (or [//]) first
    when it has one. *)
Definition Path : Type := list string.

(** The root of a path string: [/], or [//] for exactly two leading
    slashes. *)
Definition anchor (s : string) : list string :=
  match s with
  | String "/" (String "/" (String "/" _)) => ["/"]
  | String "/" (String "/" _) => ["//"]
  | String "/" _ => ["/"]
  | _ => []
  end.

Definition is_anchor (part : string) : bool :=
  String.eqb part "/" || String.eqb part "//".

(** A part that [Path(s)] drops: what stands between two slashes when it
    is empty or a single dot. *)
Definition is_blank (part : string) : bool :=
  String.eqb part "" || String.eqb part ".".

(** [Path(s)]: the root, then the parts between the slashes that are
    neither empty nor a single dot ([proj/] is [proj], [./a.py] is [a.py],
    [.] has no part at all). *)
Definition Path_of (s : string) : Path :=
  (anchor s ++ filter (fun part => negb (is_blank part)) (Str.split "/" s))%list.

(** [p / name], for a name that is one part. *)
Definition joinpath (p : Path) (name : string) : Path := (p ++ [name])%list.

(** [p.name]: the final part, empty for a path that is its root alone. *)
Definition name (p : Path) : string :=
  match p with
  | [part] => if is_anchor part then "" else part
  | _ => last p ""
  end.

(** [str(p)]: the parts joined by slashes after the root; a single dot
    for the path without parts. *)
Definition str (p : Path) : string :=
  match p with
  | [] => "."
  | first :: rest =>
      if is_anchor first then first ++ Str.join "/" rest
      else Str.join "/" p
  end.

(** [p.suffix], as pathlib computes it from the name:
    [i = name.rfind('.')], then [name[i:]] if [0 < i < len(name) - 1],
    else the empty string. *)
Definition suffix (p : Path) : string :=
  let nm := name p in
  let i := Str.rfind "." nm in
  if andb (0 <? i) (i <? Str.len nm - 1) then Str.slice_from i nm else "".

(** ** The filesystem *)

(** What the program can observe of a file: the result of [stat] ([None]
    when it raises, as on a dangling link) and the result of opening and
    reading it as UTF-8 text (the message of the exception, or the text). *)
Record file : Type := mkfile {
  st_size : option Z;
  content : string + string
}.

#[local] Set Warnings "-register-all".

(** What a path denotes, with its name in its directory.  The name of the
    root itself is not used: the root is addressed by the path given on
    the command line.
    - [File]: anything that is not a directory, a regular file or a link
      to one (at the root, where [is_file] asks for a regular file, a
      FIFO or a device behaves as [Unlisted] without entries);
    - [Dir]: a directory that can be listed;
    - [Unlisted]: a directory that [os.walk] names but does not enter,
      with what lies under it: its listing raises (no permission), or,
      below the root, it is a link to a directory;
    - [Unreachable]: a path on which [stat] raises an error that is not
      one of a missing path (permission denied on a parent, name too
      long, ...), with the message of the error. *)
Inductive node : Type :=
| File (nm : string) (f : file)
| Dir (nm : string) (entries : list node)
| Unlisted (nm : string) (entries : list node)
| Unreachable (nm : string) (e : string).

(** What the walk sees of an entry that is not a directory: [scandir]
    takes an entry whose [is_dir] raises for a file. *)
Definition unreachable_file (e : string) : file := mkfile None (inl e).

Definition dirnames (entries : list node) : list string :=
  flat_map (fun e => match e with
                     | Dir d _ | Unlisted d _ => [d]
                     | File _ _ | Unreachable _ _ => []
                     end) entries.

Definition filenames (entries : list node) : list (string * file) :=
  flat_map (fun e => match e with
                     | File n f => [(n, f)]
                     | Unreachable n e => [(n, unreachable_file e)]
                     | Dir _ _ | Unlisted _ _ => []
                     end) entries.

(** [os.walk(top)], top-down, not following links, [onerror=None]: one
    triple per directory that is listed, the directory before its
    subdirectories.  A file name is paired with the file it denotes.  A
    directory that cannot be listed, at the top or below, gives no triple
    and no error (the error of [scandir] is dropped), and a link to a
    directory is named among the directories of its parent and not
    entered. *)
Fixpoint os_walk_node (top : Path) (n : node)
  : list (Path * list string * list (string * file)) :=
  match n with
  | File _ _ | Unlisted _ _ | Unreachable _ _ => []
  | Dir _ entries =>
      (top, dirnames entries, filenames entries)
      :: flat_map (fun e => match e with
                            | Dir d _ => os_walk_node (joinpath top d) e
                            | File _ _ | Unlisted _ _ | Unreachable _ _ => []
                            end) entries
  end.

(** The same for a path at which nothing exists. *)
Definition os_walk (top : Path) (target : option node)
  : list (Path * list string * list (string * file)) :=
  match target with
  | Some n => os_walk_node top n
  | None => []
  end.

(** The value of [path.is_file()] when it returns: true for a regular
    file, false for a directory and for a missing path, since pathlib
    takes the errors of a missing path (ENOENT, ENOTDIR, EBADF, ELOOP)
    for the answer no. *)
Definition is_file (target : option node) : bool :=
  match target with
  | Some (File _ f) => match st_size f with Some _ => true | None => false end
  | _ => false
  end.

(** The error that [stat] raises on the path itself and that pathlib does
    not take for a missing path. *)
Definition lookup_fails (target : option node) : option string :=
  match target with
  | Some (Unreachable _ e) => Some e
  | _ => None
  end.

(** ** Effects: standard output, opened files, exceptions *)

Record world : Type := mkworld {
  stdout : list string;   (* one element for each call of print *)
  opened : list Path      (* one element for each call of open *)
}.

Definition empty_world : world := mkworld [] [].

Inductive outcome (A : Type) : Type :=
| Done (x : A) (w : world)
| Uncaught (e : string) (w : world).
Arguments Done {A} x w.
Arguments Uncaught {A} e w.

Definition M (A : Type) : Type := world -> outcome A.

Definition ret {A} (x : A) : M A := fun w => Done x w.

Definition bind {A B} (m : M A) (k : A -> M B) : M B :=
  fun w => match m w with
           | Done x w' => k x w'
           | Uncaught e w' => Uncaught e w'
           end.

Definition raise {A} (e : string) : M A := fun w => Uncaught e w.

(** [try: m  except Exception as e: h e] *)
Definition try_except {A} (m : M A) (h : string -> M A) : M A :=
  fun w => match m w with
           | Done x w' => Done x w'
           | Uncaught e w' => h e w'
           end.

Declare Scope py_scope.
Delimit Scope py_scope with py.
Notation "x <- m ;; k" := (bind m (fun x => k))
  (at level 100, m at next level, right associativity) : py_scope.
Notation "m ;; k" := (bind m (fun _ => k))
  (at level 100, right associativity) : py_scope.
Local Open Scope py_scope.

Definition print (line : string) : M unit :=
  fun w => Done tt (mkworld (stdout w ++ [line])%list (opened w)).

(** [for x in l: t = body x t] *)
Fixpoint for_each {A T} (l : list A) (body : A -> T -> M T) (t : T) : M T :=
  match l with
  | [] => ret t
  | x :: l' => t' <- body x t ;; for_each l' body t'
  end.

(** [open(file_path, 'r', encoding='utf-8')] followed by [f.read()]. *)
Definition open_read (file_path : Path) (f : file) : M string :=
  fun w =>
    let w' := mkworld (stdout w) (opened w ++ [file_path])%list in
    match content f with
    | inr text => Done text w'
    | inl msg => Uncaught msg w'
    end.

(** [file_path.stat().st_size] *)
Definition stat_size (f : file) : M Z :=
  match st_size f with
  | Some n => ret n
  | None => raise "OSError"
  end.

(** [path.is_file()] as the program calls it: any other error of [stat]
    than those of a missing path is raised again. *)
Definition path_is_file (target : option node) : M bool :=
  match lookup_fails target with
  | Some e => raise e
  | None => ret (is_file target)
  end.

(** The local counters of [main]. *)
Record totals : Type := mktotals {
  total_tokens : Z;
  total_files : Z;
  skipped_files : Z
}.

Record args : Type := mkargs {
  path : string;
  extensions : string;
  verbose : bool;
  max_file_size : Z
}.

Definition nl : string := String (ascii_of_nat 10) EmptyString.

Section TokenPricer.

(** The external tokenizer, [tiktoken.get_encoding("cl100k_base").encode]:
    the tokens of a text, or the message of the exception it raises. *)
Variable encode : string -> string + list Z.

Definition tiktoken_encode (text : string) : M (list Z) :=
  match encode text with
  | inr tokens => ret tokens
  | inl msg => raise msg
  end.

Definition count_tokens_in_file (file_path : Path) (f : file) : M Z :=
  try_except
    (text <- open_read file_path f ;;
     tokens <- tiktoken_encode text ;;
     ret (Z.of_nat (List.length tokens)))
    (fun e =>
       print ("Error processing " ++ str file_path ++ ": " ++ e) ;;
       ret 0).

Definition get_default_extensions : list string :=
  [ ".py"; ".js"; ".jsx"; ".ts"; ".tsx"; ".java"; ".cpp"; ".c";
    ".h"; ".hpp"; ".cs"; ".rb"; ".php"; ".go"; ".rs"; ".swift";
    ".kt"; ".kts"; ".scala"; ".sql"; ".html"; ".css"; ".scss";
    ".sass"; ".less"; ".md"; ".txt"; ".json"; ".yaml"; ".yml" ].

Definition format_token_count (count : Z) : string :=
  Fmt.thousands count ++ " tokens (≈$"
    ++ Fmt.fixed2 (Fmt.float_mul_int (Fmt.int_truediv count 1000000) 3)
    ++ " at $3/1M tokens)".

(** The defaults of the argument parser. *)
Definition default_max_file_size : Z := 1024 * 1024.

Definition default_args (p : string) : args :=
  mkargs p (Str.join "," get_default_extensions) false default_max_file_size.

(** [ext if ext.startswith('.') else f'.{ext}'] *)
Definition dotted (ext : string) : string :=
  if Str.startswith "." ext then ext else "." ++ ext.

(** [[... for ext in args.extensions.split(',')]] *)
Definition parse_extensions (s : string) : list string :=
  map dotted (Str.split "," s).

Definition print_if (b : bool) (line : string) : M unit :=
  if b then print line else ret tt.

(** The branch of [main] for a path that is a file. *)
Definition main_file (a : args) (p : Path) (f : file) (t : totals)
  : M totals :=
  size <- stat_size f ;;
  if size <=? max_file_size a then
    tokens <- count_tokens_in_file p f ;;
    print_if (verbose a) (str p ++ ": " ++ format_token_count tokens) ;;
    ret (mktotals (total_tokens t + tokens) (total_files t + 1)
           (skipped_files t))
  else
    print ("Skipped " ++ str p ++ ": File too large") ;;
    ret (mktotals (total_tokens t) (total_files t) (skipped_files t + 1)).

(** The body of the inner loop of the directory branch. *)
Definition main_walk_file (a : args) (exts : list string) (root : Path)
    (entry : string * file) (t : totals) : M totals :=
  let '(file, f) := entry in
  let file_path := joinpath root file in
  if Str.mem (suffix file_path) exts then
    size <- stat_size f ;;
    if size <=? max_file_size a then
      tokens <- count_tokens_in_file file_path f ;;
      print_if (verbose a)
        (str file_path ++ ": " ++ format_token_count tokens) ;;
      ret (mktotals (total_tokens t + tokens) (total_files t + 1)
             (skipped_files t))
    else
      print_if (verbose a)
        ("Skipped " ++ str file_path ++ ": File too large") ;;
      ret (mktotals (total_tokens t) (total_files t) (skipped_files t + 1))
  else ret t.

(** The directory branch: the two nested loops over [os.walk(path)]. *)
Definition main_walk (a : args) (exts : list string) (p : Path)
    (target : option node) (t : totals) : M totals :=
  for_each (os_walk p target)
    (fun '(root, _, files) t =>
       for_each files (main_walk_file a exts root) t)
    t.

Definition print_summary (t : totals) : M unit :=
  print (nl ++ "Summary:") ;;
  print ("Total files processed: " ++ Fmt.thousands (total_files t)) ;;
  print ("Files skipped (too large): " ++ Fmt.thousands (skipped_files t)) ;;
  print ("Total: " ++ format_token_count (total_tokens t)).

(** [main], on parsed arguments and on what [args.path] denotes in the
    filesystem ([None]: nothing exists there, and [stat] says so with the
    error of a missing path).  It returns its counters as they are when
    the summary is printed. *)
Definition main (a : args) (target : option node) : M totals :=
  let extensions := parse_extensions (extensions a) in
  let path := Path_of (path a) in
  let t0 := mktotals 0 0 0 in
  is_a_file <- path_is_file target ;;
  t <- (if is_a_file then
          match target with
          | Some (File _ f) => main_file a path f t0
          | _ => ret t0
          end
        else main_walk a extensions path target t0) ;;
  print_summary t ;;
  ret t.

(** ** Reading the specification: the files of a tree *)

Definition node_name (n : node) : string :=
  match n with
  | File nm _ => nm
  | Dir nm _ => nm
  | Unlisted nm _ => nm
  | Unreachable nm _ => nm
  end.

(** The files that a traversal from a node at path [p] discovers, each
    with its own path, in listing order: every file at any depth that is
    reached through directories that can be listed.  Nothing under an
    [Unlisted] directory is discovered. *)
Fixpoint files_under (p : Path) (n : node) : list (Path * file) :=
  match n with
  | File _ f => [(p, f)]
  | Unreachable _ e => [(p, unreachable_file e)]
  | Dir _ entries =>
      flat_map (fun e => files_under (joinpath p (node_name e)) e) entries
  | Unlisted _ _ => []
  end.

(** Every file at any depth under a node at path [p], also under the
    directories that the walk does not enter. *)
Fixpoint all_files_under (p : Path) (n : node) : list (Path * file) :=
  match n with
  | File _ f => [(p, f)]
  | Unreachable _ e => [(p, unreachable_file e)]
  | Dir _ entries | Unlisted _ entries =>
      flat_map (fun e => all_files_under (joinpath p (node_name e)) e) entries
  end.

(** The same tree up to the order in which each directory lists its
    entries. *)
Inductive same_tree : node -> node -> Prop :=
| same_File nm f : same_tree (File nm f) (File nm f)
| same_Dir nm es es' es'' :
    Forall2 same_tree es es' ->
    Permutation es' es'' ->
    same_tree (Dir nm es) (Dir nm es'')
| same_Unlisted nm es : same_tree (Unlisted nm es) (Unlisted nm es)
| same_Unreachable nm e : same_tree (Unreachable nm e) (Unreachable nm e).

Definition same_target (t1 t2 : option node) : Prop :=
  match t1, t2 with
  | None, None => True
  | Some n1, Some n2 => same_tree n1 n2
  | _, _ => False
  end.

(** Every directory of the tree can be listed and none is a link. *)
Fixpoint listable (n : node) : bool :=
  match n with
  | Dir _ entries => forallb listable entries
  | Unlisted _ _ => false
  | File _ _ | Unreachable _ _ => true
  end.

(** What a run leaves behind for the caller of [main]: its counters when
    it returns, nothing when it dies of an uncaught exception. *)
Definition totals_of (o : outcome totals) : option totals :=
  match o with
  | Done t _ => Some t
  | Uncaught _ _ => None
  end.

Definition Zsum (l : list Z) : Z := fold_right Z.add 0 l.

(** A structural induction principle for trees. *)
Fixpoint node_rect' (P : node -> Prop)
    (HF : forall nm f, P (File nm f))
    (HD : forall nm es, Forall P es -> P (Dir nm es))
    (HU : forall nm es, Forall P es -> P (Unlisted nm es))
    (HR : forall nm e, P (Unreachable nm e))
    (n : node) : P n :=
  let fix all (l : list node) : Forall P l :=
    match l with
    | [] => Forall_nil P
    | e :: l' => Forall_cons e (node_rect' P HF HD HU HR e) (all l')
    end in
  match n with
  | File nm f => HF nm f
  | Dir nm es => HD nm es (all es)
  | Unlisted nm es => HU nm es (all es)
  | Unreachable nm e => HR nm e
  end.

(** The candidates of a walk: the files of every triple, joined to the
    root of their triple, in the order of the two nested loops. *)
Definition candidates (p : Path) (target : option node) : list (Path * file) :=
  flat_map (fun '(root, _, files) =>
              map (fun '(file, f) => (joinpath root file, f)) files)
           (os_walk p target).

(** ** What one file contributes *)

(** The count that [count_tokens_in_file] returns for a file. *)
Definition token_count (f : file) : Z :=
  match content f with
  | inl _ => 0
  | inr text =>
      match encode text with
      | inl _ => 0
      | inr tokens => Z.of_nat (List.length tokens)
      end
  end.

Definition error_line (p : Path) (msg : string) : string :=
  "Error processing " ++ str p ++ ": " ++ msg.

(** The lines that [count_tokens_in_file] prints for a file. *)
Definition diagnostic (p : Path) (f : file) : list string :=
  match content f with
  | inl msg => [error_line p msg]
  | inr text =>
      match encode text with
      | inl msg => [error_line p msg]
      | inr _ => []
      end
  end.

(** The body of the inner loop on a candidate, a file with its path. *)
Definition visit (a : args) (exts : list string) (c : Path * file)
    (t : totals) : M totals :=
  let '(file_path, f) := c in
  if Str.mem (suffix file_path) exts then
    size <- stat_size f ;;
    if size <=? max_file_size a then
      tokens <- count_tokens_in_file file_path f ;;
      print_if (verbose a)
        (str file_path ++ ": " ++ format_token_count tokens) ;;
      ret (mktotals (total_tokens t + tokens) (total_files t + 1)
             (skipped_files t))
    else
      print_if (verbose a)
        ("Skipped " ++ str file_path ++ ": File too large") ;;
      ret (mktotals (total_tokens t) (total_files t) (skipped_files t + 1))
  else ret t.

Definition matches (exts : list string) (c : Path * file) : bool :=
  Str.mem (suffix (fst c)) exts.

(** The size exceeds the threshold. *)
Definition exceeds (a : args) (c : Path * file) : bool :=
  match st_size (snd c) with
  | Some n => max_file_size a <? n
  | None => false
  end.

Definition stat_fails (c : Path * file) : bool :=
  match st_size (snd c) with
  | Some _ => false
  | None => true
  end.

(** Matching files within the threshold, matching files beyond it, and
    matching files on which [stat] raises. *)
Definition selected (a : args) (exts : list string) (c : Path * file) : bool :=
  matches exts c && negb (exceeds a c) && negb (stat_fails c).

Definition oversized (a : args) (exts : list string) (c : Path * file) : bool :=
  matches exts c && exceeds a c.

Definition fatal (exts : list string) (c : Path * file) : bool :=
  matches exts c && stat_fails c.

Definition file_line (p : Path) (tokens : Z) : string :=
  str p ++ ": " ++ format_token_count tokens.

Definition skipped_line (p : Path) : string :=
  "Skipped " ++ str p ++ ": File too large".

(** The lines that the loop body prints for a candidate. *)
Definition lines (a : args) (exts : list string) (c : Path * file)
  : list string :=
  if selected a exts c then
    (diagnostic (fst c) (snd c)
     ++ (if verbose a then [file_line (fst c) (token_count (snd c))]
         else []))%list
  else if oversized a exts c then
    (if verbose a then [skipped_line (fst c)] else [])
  else [].

(** The counters after the loop has run over the candidates [l]. *)
Definition after_walk (a : args) (exts : list string) (l : list (Path * file))
    (t : totals) : totals :=
  mktotals
    (total_tokens t
     + Zsum (map (fun c => token_count (snd c)) (filter (selected a exts) l)))
    (total_files t + Z.of_nat (List.length (filter (selected a exts) l)))
    (skipped_files t + Z.of_nat (List.length (filter (oversized a exts) l))).

(** The summary block. *)
Definition summary (t : totals) : list string :=
  [ nl ++ "Summary:";
    "Total files processed: " ++ Fmt.thousands (total_files t);
    "Files skipped (too large): " ++ Fmt.thousands (skipped_files t);
    "Total: " ++ format_token_count (total_tokens t) ].

(** The extension list and the root path that [main] computes. *)
Definition exts_of (a : args) : list string := parse_extensions (extensions a).
Definition root_of (a : args) : Path := Path_of (path a).

Definition zero : totals := mktotals 0 0 0.

(** Matching files whose size does not exceed the threshold, in the words
    of the specification. *)
Definition eligible (a : args) (exts : list string) (c : Path * file) : bool :=
  matches exts c && negb (exceeds a c).

(** The same arguments with another value of [--extensions]. *)
Definition with_extensions (a : args) (e : string) : args :=
  mkargs (path a) e (verbose a) (max_file_size a).

Definition has_comma (s : string) : bool :=
  existsb (fun c => Ascii.eqb c ",") (list_ascii_of_string s).

(** A string without its commas. *)
Fixpoint drop_commas (s : string) : string :=
  match s with
  | EmptyString => EmptyString
  | String c rest =>
      if Ascii.eqb c "," then drop_commas rest else String c (drop_commas rest)
  end.

(** ** Variations of the arguments and of the outcome *)

(** The same arguments with another value of [--verbose]. *)
Definition with_verbose (a : args) (b : bool) : args :=
  mkargs (path a) (extensions a) b (max_file_size a).

(** The same arguments with another value of [--max-file-size]. *)
Definition with_max_file_size (a : args) (m : Z) : args :=
  mkargs (path a) (extensions a) (verbose a) m.

(** The world as a run left it, returned or not. *)
Definition world_of {A} (o : outcome A) : world :=
  match o with
  | Done _ w => w
  | Uncaught _ w => w
  end.

(** The first line of the summary block. *)
Definition summary_header : string := nl ++ "Summary:".

(** ** Fixtures for the examples *)

(** A stand-in for the tokenizer: one token for each character, and the
    text [<|endoftext|>] refused as a special token. *)
Definition char_tokens (text : string) : string + list Z :=
  if String.eqb text "<|endoftext|>"
  then inl "Encountered text corresponding to disallowed special token"
  else inr (map (fun c => Z.of_nat (nat_of_ascii c)) (list_ascii_of_string text)).

Definition small_py : file := mkfile (Some 13) (inr "def f(): pass").
Definition big_md : file := mkfile (Some 2000000) (inr "# notes").
Definition exact_txt : file := mkfile (Some 1048576) (inr "at the limit").
Definition binary_py : file :=
  mkfile (Some 5) (inl "'utf-8' codec can't decode byte 0xff in position 0").
Definition dangling_py : file := mkfile None (inl "No such file or directory").

Definition project : node :=
  Dir "proj"
    [ File "a.py" small_py;
      Dir "sub" [ File "c.py" binary_py; File "x.bin" small_py;
                  File ".py" small_py; File "a.tar.gz" small_py ];
      File "b.md" big_md;
      File "UPPER.PY" small_py;
      File "limit.txt" exact_txt ].

(** The same tree with its listings in another order. *)
Definition project_reordered : node :=
  Dir "proj"
    [ Dir "sub" [ File "x.bin" small_py; File "c.py" binary_py;
                  File ".py" small_py; File "a.tar.gz" small_py ];
      File "a.py" small_py;
      File "b.md" big_md;
      File "UPPER.PY" small_py;
      File "limit.txt" exact_txt ].

Definition project_args : args := default_args "proj".

Definition project_verbose : args :=
  mkargs "proj" (Str.join "," get_default_extensions) true default_max_file_size.

(** ** More fixtures *)

(** A file the stand-in tokenizer refuses. *)
Definition special_txt : file := mkfile (Some 13) (inr "<|endoftext|>").

(** A directory in which no file has a suffix of the default list: one
    dangling link, one unreadable file, one empty subdirectory. *)
Definition unmatched_tree : node :=
  Dir "d" [ File "gone.bin" dangling_py; File "Makefile" binary_py;
            Dir "empty" [] ].

(** A directory with a subdirectory that cannot be listed. *)
Definition locked_tree : node :=
  Dir "proj" [ File "a.py" small_py;
               Unlisted "private" [ File "secret.py" small_py ] ].

(** A directory with a dangling link among its matching files. *)
Definition broken_tree : node :=
  Dir "proj" [ File "a.py" small_py; File "gone.py" dangling_py;
               File "b.py" small_py ].

(** * Properties *)

(** ** The monad and its loops *)

Lemma for_each_app {A T} (l1 l2 : list A) (body : A -> T -> M T) t w :
  for_each (l1 ++ l2) body t w
  = bind (for_each l1 body t) (for_each l2 body) w.
Proof.
  revert t w. induction l1 as [|x l1 IH]; intros t w; simpl.
  - reflexivity.
  - unfold bind in *. destruct (body x t w) as [t' w'|e w']; [|reflexivity].
    apply IH.
Qed.

Lemma for_each_map {A B T} (g : A -> B) (l : list A) (body : B -> T -> M T) t w :
  for_each (map g l) body t w = for_each l (fun x => body (g x)) t w.
Proof.
  revert t w. induction l as [|x l IH]; intros t w; simpl; [reflexivity|].
  unfold bind. destruct (body (g x) t w); [apply IH|reflexivity].
Qed.

Lemma for_each_ext {A T} (l : list A) (b1 b2 : A -> T -> M T) t w :
  (forall x t w, b1 x t w = b2 x t w) ->
  for_each l b1 t w = for_each l b2 t w.
Proof.
  intros E. revert t w. induction l as [|x l IH]; intros t w; simpl;
    [reflexivity|].
  unfold bind. rewrite E. destruct (b2 x t w); [apply IH|reflexivity].
Qed.

Lemma for_each_nested {T} (walk : list (Path * list string * list (string * file)))
    (body : Path * file -> T -> M T) t w :
  for_each walk
    (fun '(root, _, files) t =>
       for_each files (fun '(file, f) => body (joinpath root file, f)) t) t w
  = for_each
      (flat_map (fun '(root, _, files) =>
                   map (fun '(file, f) => (joinpath root file, f)) files) walk)
      body t w.
Proof.
  revert t w. induction walk as [|[[root ds] files] walk IH]; intros t w;
    simpl; [reflexivity|].
  rewrite for_each_app. unfold bind.
  rewrite for_each_map.
  rewrite (for_each_ext files
             (fun x => body (let '(file, f) := x in (joinpath root file, f)))
             (fun '(file, f) => body (joinpath root file, f)))
    by (intros [? ?]; reflexivity).
  destruct (for_each files _ t w); [apply IH|reflexivity].
Qed.

(** The walk finds the files of the tree, each once, directory by
    directory. *)
Lemma candidates_dir p nm es :
  candidates p (Some (Dir nm es))
  = (map (fun '(file, f) => (joinpath p file, f)) (filenames es)
     ++ flat_map (fun e => match e with
                           | Dir d _ => candidates (joinpath p d) (Some e)
                           | File _ _ | Unlisted _ _ | Unreachable _ _ => []
                           end) es)%list.
Proof.
  unfold candidates at 1. simpl. f_equal.
  induction es as [|e es IH]; simpl; [reflexivity|].
  rewrite flat_map_app. rewrite IH. f_equal.
  destruct e; reflexivity.
Qed.

Lemma candidates_files_under p n :
  Permutation (candidates p (Some n))
    (match n with
     | Dir _ _ => files_under p n
     | File _ _ | Unlisted _ _ | Unreachable _ _ => []
     end).
Proof.
  revert p.
  induction n as [nm f|nm es IH|nm es _|nm e] using node_rect'; intros p;
    try reflexivity.
  rewrite candidates_dir. simpl.
  induction es as [|e es IHes]; simpl; [constructor|].
  inversion IH as [|? ? He Hes]; subst.
  destruct e as [fn f|d sub|d sub|fn e]; simpl.
  - constructor. apply IHes, Hes.
  - rewrite Permutation_app_swap_app.
    apply Permutation_app; [apply He|apply IHes, Hes].
  - apply IHes, Hes.
  - constructor. apply IHes, Hes.
Qed.

Lemma count_tokens_in_file_spec p f w :
  count_tokens_in_file p f w
  = Done (token_count f)
      (mkworld (stdout w ++ diagnostic p f) (opened w ++ [p])).
Proof.
  unfold count_tokens_in_file, try_except, bind, open_read, tiktoken_encode,
    token_count, diagnostic, error_line.
  destruct (content f) as [msg|text]; simpl.
  - reflexivity.
  - destruct (encode text) as [msg|tokens]; simpl.
    + reflexivity.
    + unfold ret. now rewrite app_nil_r.
Qed.

Lemma token_count_nonneg f : 0 <= token_count f.
Proof.
  unfold token_count. destruct (content f); [lia|].
  destruct (encode _); lia.
Qed.

Lemma main_walk_file_visit a exts root file f :
  main_walk_file a exts root (file, f) = visit a exts (joinpath root file, f).
Proof. reflexivity. Qed.

Lemma main_walk_candidates a exts p target t w :
  main_walk a exts p target t w
  = for_each (candidates p target) (visit a exts) t w.
Proof.
  unfold main_walk, candidates.
  rewrite <- for_each_nested.
  apply for_each_ext. intros [[root ds] files] t' w'.
  apply for_each_ext. intros [file f] t'' w''. reflexivity.
Qed.

Lemma world_eta w : mkworld (stdout w ++ []) (opened w ++ []) = w.
Proof. destruct w; simpl. now rewrite !app_nil_r. Qed.

Lemma totals_eta t :
  mktotals (total_tokens t + 0) (total_files t + 0) (skipped_files t + 0) = t.
Proof. destruct t; simpl. now rewrite !Z.add_0_r. Qed.

Lemma visit_step a exts c t w :
  fatal exts c = false ->
  visit a exts c t w
  = Done (after_walk a exts [c] t)
      (mkworld (stdout w ++ lines a exts c)
         (opened w ++ map fst (filter (selected a exts) [c]))).
Proof.
  destruct c as [fp f].
  unfold fatal, after_walk, lines, file_line, skipped_line, selected,
    oversized, matches, exceeds, stat_fails, visit, stat_size; simpl.
  destruct (Str.mem (suffix fp) exts); simpl.
  2:{ intros _. unfold ret. now rewrite world_eta, totals_eta. }
  destruct (st_size f) as [n|]; simpl; [intros _|discriminate].
  unfold bind at 1. unfold ret at 1.
  rewrite Z.leb_antisym.
  destruct (max_file_size a <? n); simpl.
  - unfold bind, print_if, print, ret.
    destruct (verbose a); simpl;
      rewrite ?app_nil_r, ?Z.add_0_r; destruct w; reflexivity.
  - unfold bind. rewrite count_tokens_in_file_spec.
    unfold print_if, print, ret.
    destruct (verbose a); simpl;
      rewrite ?app_nil_r, ?Z.add_0_r, <- ?app_assoc; reflexivity.
Qed.

Lemma after_walk_cons a exts c l t :
  after_walk a exts l (after_walk a exts [c] t) = after_walk a exts (c :: l) t.
Proof.
  unfold after_walk; simpl.
  destruct (selected a exts c), (oversized a exts c); simpl;
    f_equal; lia.
Qed.

(** The loop returns when [stat] succeeds on every matching file, and the
    counters, the output and the opened files are then these. *)
Lemma walk_done a exts l t w :
  existsb (fatal exts) l = false ->
  for_each l (visit a exts) t w
  = Done (after_walk a exts l t)
      (mkworld (stdout w ++ flat_map (lines a exts) l)
         (opened w ++ map fst (filter (selected a exts) l))).
Proof.
  revert t w. induction l as [|c l IH]; intros t w H; simpl in *.
  - unfold ret. unfold after_walk; simpl. now rewrite world_eta, totals_eta.
  - apply orb_false_elim in H as [Hc Hl].
    unfold bind. rewrite (visit_step _ _ _ _ _ Hc).
    rewrite (IH _ _ Hl). rewrite after_walk_cons. simpl.
    f_equal. f_equal.
    + now rewrite app_assoc.
    + rewrite <- app_assoc. f_equal.
      destruct (selected a exts c); reflexivity.
Qed.

(** The loop dies of an uncaught exception as soon as [stat] fails on a
    matching file. *)
Lemma walk_uncaught a exts l t w :
  existsb (fatal exts) l = true ->
  exists e w', for_each l (visit a exts) t w = Uncaught e w'.
Proof.
  revert t w. induction l as [|c l IH]; intros t w H; simpl in *;
    [discriminate|].
  unfold bind. destruct (fatal exts c) eqn:Hc.
  - exists "OSError", w. destruct c as [fp f]. unfold fatal, matches, stat_fails in Hc.
    simpl in Hc. unfold visit, stat_size, bind.
    destruct (Str.mem (suffix fp) exts); [|discriminate].
    destruct (st_size f); [discriminate|]. reflexivity.
  - rewrite (visit_step _ _ _ _ _ Hc). apply IH. exact H.
Qed.

(** ** Whole runs *)

Lemma print_summary_spec t w :
  print_summary t w = Done tt (mkworld (stdout w ++ summary t) (opened w)).
Proof.
  unfold print_summary, bind, print, summary; simpl.
  now rewrite <- !app_assoc.
Qed.

Lemma path_is_file_spec target w :
  path_is_file target w
  = match lookup_fails target with
    | Some e => Uncaught e w
    | None => Done (is_file target) w
    end.
Proof. unfold path_is_file. now destruct (lookup_fails target). Qed.

(** A run dies in [path.is_file()] when [stat] raises on the path itself,
    before anything is printed or opened. *)
Lemma main_lookup_fails a target e w :
  lookup_fails target = Some e -> main a target w = Uncaught e w.
Proof.
  intros H. unfold main, bind. now rewrite path_is_file_spec, H.
Qed.

Lemma main_done_lookup a target w t w' :
  main a target w = Done t w' -> lookup_fails target = None.
Proof.
  destruct (lookup_fails target) as [e|] eqn:E; [|reflexivity].
  rewrite (main_lookup_fails a target e w E). discriminate.
Qed.

(** A run on anything but a file returns when [stat] succeeds on every
    matching file of the walk. *)
Lemma main_walk_done a target w :
  lookup_fails target = None ->
  is_file target = false ->
  existsb (fatal (exts_of a)) (candidates (root_of a) target) = false ->
  let l := candidates (root_of a) target in
  let t := after_walk a (exts_of a) l zero in
  main a target w
  = Done t
      (mkworld (stdout w ++ flat_map (lines a (exts_of a)) l ++ summary t)
         (opened w ++ map fst (filter (selected a (exts_of a)) l))).
Proof.
  intros Hr Hf Hl l t. unfold main.
  unfold bind at 1. rewrite path_is_file_spec, Hr, Hf.
  unfold bind at 1. rewrite main_walk_candidates.
  fold (exts_of a) (root_of a) zero l.
  rewrite (walk_done _ _ _ _ _ Hl). fold t.
  unfold bind. rewrite print_summary_spec. simpl.
  unfold ret. now rewrite <- app_assoc.
Qed.

Lemma main_walk_uncaught a target w :
  lookup_fails target = None ->
  is_file target = false ->
  existsb (fatal (exts_of a)) (candidates (root_of a) target) = true ->
  exists e w', main a target w = Uncaught e w'.
Proof.
  intros Hr Hf Hl. unfold main.
  unfold bind at 1. rewrite path_is_file_spec, Hr, Hf.
  unfold bind at 1. rewrite main_walk_candidates.
  destruct (walk_uncaught a (exts_of a) _ zero w Hl) as (e & w' & E).
  exists e, w'. unfold exts_of, root_of, zero in E. now rewrite E.
Qed.

(** A run on a file. *)
Lemma main_file_done a nm f n w :
  st_size f = Some n ->
  main a (Some (File nm f)) w
  = if n <=? max_file_size a then
      let t := mktotals (token_count f) 1 0 in
      Done t
        (mkworld
           (stdout w ++ diagnostic (root_of a) f
            ++ (if verbose a then [file_line (root_of a) (token_count f)]
                else [])
            ++ summary t)
           (opened w ++ [root_of a]))
    else
      let t := mktotals 0 0 1 in
      Done t
        (mkworld (stdout w ++ [skipped_line (root_of a)] ++ summary t)
           (opened w)).
Proof.
  intros Hn. unfold main. unfold bind at 1.
  rewrite path_is_file_spec. cbn [lookup_fails is_file]. rewrite Hn.
  fold (root_of a). unfold main_file, stat_size. rewrite Hn.
  unfold bind at 1 2. unfold ret at 1.
  destruct (n <=? max_file_size a); cbv zeta.
  - unfold bind at 1. rewrite count_tokens_in_file_spec.
    unfold bind. unfold print_if.
    destruct (verbose a); unfold print, ret; rewrite print_summary_spec;
      simpl; rewrite <- ?app_assoc; simpl; rewrite ?app_nil_r; reflexivity.
  - unfold bind, print, ret. rewrite print_summary_spec. simpl.
    now rewrite <- app_assoc.
Qed.


(** A run that returns met no matching file on which [stat] fails, and its
    result is the one computed by [main_walk_done]. *)
Lemma main_walk_inv a target w t w' :
  is_file target = false ->
  main a target w = Done t w' ->
  let l := candidates (root_of a) target in
  existsb (fatal (exts_of a)) l = false
  /\ t = after_walk a (exts_of a) l zero
  /\ w' = mkworld (stdout w ++ flat_map (lines a (exts_of a)) l ++ summary t)
            (opened w ++ map fst (filter (selected a (exts_of a)) l)).
Proof.
  intros Hf H l. pose proof (main_done_lookup _ _ _ _ _ H) as Hr.
  destruct (existsb (fatal (exts_of a)) l) eqn:Hl.
  - destruct (main_walk_uncaught a target w Hr Hf Hl) as (e & w'' & E).
    rewrite E in H. discriminate.
  - rewrite (main_walk_done a target w Hr Hf Hl) in H.
    injection H as <- <-. auto.
Qed.

(** ** Counting over the candidates *)

Lemma filter_perm {A} (f : A -> bool) (l l' : list A) :
  Permutation l l' -> Permutation (filter f l) (filter f l').
Proof.
  induction 1 as [|x l l' _ IH|x y l|l l' l'' _ IH1 _ IH2]; simpl.
  - constructor.
  - destruct (f x); [constructor|]; exact IH.
  - destruct (f x), (f y); try reflexivity. apply perm_swap.
  - now transitivity (filter f l').
Qed.

Lemma Zsum_perm (l l' : list Z) : Permutation l l' -> Zsum l = Zsum l'.
Proof.
  induction 1; simpl; lia.
Qed.

Lemma existsb_perm {A} (f : A -> bool) (l l' : list A) :
  Permutation l l' -> existsb f l = existsb f l'.
Proof.
  induction 1 as [|x l l' _ IH|x y l|l l' l'' _ IH1 _ IH2]; simpl.
  - reflexivity.
  - now rewrite IH.
  - destruct (f x), (f y); reflexivity.
  - congruence.
Qed.

(** Without a failing [stat], the files the loop processes are the
    eligible ones. *)
Lemma selected_eligible a exts l :
  existsb (fatal exts) l = false ->
  filter (selected a exts) l = filter (eligible a exts) l.
Proof.
  induction l as [|c l IH]; simpl; [reflexivity|].
  intros H. apply orb_false_elim in H as [Hc Hl]. rewrite (IH Hl).
  unfold selected, eligible, fatal in *.
  destruct (matches exts c); simpl in *; [|reflexivity].
  rewrite Hc. simpl. now rewrite andb_true_r.
Qed.

(** Without a failing [stat], every matching file is processed or skipped,
    and never both. *)
Lemma matching_partition a exts l :
  existsb (fatal exts) l = false ->
  (List.length (filter (selected a exts) l)
   + List.length (filter (oversized a exts) l)
   = List.length (filter (matches exts) l))%nat.
Proof.
  induction l as [|c l IH]; simpl; [reflexivity|].
  intros H. apply orb_false_elim in H as [Hc Hl]. specialize (IH Hl).
  unfold selected, oversized, fatal in *.
  destruct (matches exts c); simpl in *; [|exact IH].
  rewrite Hc. simpl. rewrite andb_true_r.
  destruct (exceeds a c); simpl; lia.
Qed.

(** ** C1: a path at which nothing exists *)


(** ** C2: every matching file is counted once *)

(** C2.  When a run over a directory returns, the number of files
    processed and the number of files skipped add up to the number of
    files that the walk discovers at any depth under the directory and
    whose suffix is in the extension list: the processed ones are those
    within the size threshold, the skipped ones those beyond it. *)
Theorem processed_plus_skipped_is_matching a nm es w t w' :
  main a (Some (Dir nm es)) w = Done t w' ->
  let found := files_under (root_of a) (Dir nm es) in
  total_files t + skipped_files t
  = Z.of_nat (List.length (filter (matches (exts_of a)) found))
  /\ total_files t
     = Z.of_nat (List.length (filter (eligible a (exts_of a)) found))
  /\ skipped_files t
     = Z.of_nat (List.length (filter (oversized a (exts_of a)) found)).
Proof.
  intros H found.
  destruct (main_walk_inv a (Some (Dir nm es)) w _ _ eq_refl H) as (Hl & -> & _).
  pose proof (candidates_files_under (root_of a) (Dir nm es)) as P.
  fold found in P.
  pose proof (matching_partition a _ _ Hl) as Hsum.
  rewrite (selected_eligible _ _ _ Hl) in *.
  unfold after_walk; simpl.
  rewrite (selected_eligible _ _ _ Hl).
  rewrite <- (Permutation_length (filter_perm (matches (exts_of a)) _ _ P)).
  rewrite <- (Permutation_length (filter_perm (eligible a (exts_of a)) _ _ P)).
  rewrite <- (Permutation_length (filter_perm (oversized a (exts_of a)) _ _ P)).
  repeat split; lia.
Qed.

(** ** C3: the files handed to the tokenizer *)

(** What the walk discovers is part of what lies under the directory. *)
Lemma files_under_all p n c :
  In c (files_under p n) -> In c (all_files_under p n).
Proof.
  revert p.
  induction n as [nm f|nm es IH|nm es _|nm e] using node_rect'; intros p;
    simpl; try tauto.
  intros H. apply in_flat_map in H as (x & Hx & H).
  apply in_flat_map. exists x. split; [exact Hx|].
  apply (proj1 (Forall_forall _ _) IH x Hx), H.
Qed.

(** It is all of it when every directory can be listed. *)
Lemma files_under_listable p n :
  listable n = true -> files_under p n = all_files_under p n.
Proof.
  revert p.
  induction n as [nm f|nm es IH|nm es _|nm e] using node_rect'; intros p;
    simpl; try reflexivity; try discriminate.
  intros H. induction es as [|x es IHes]; simpl in *; [reflexivity|].
  apply andb_prop in H as [Hx Hes].
  inversion IH as [|? ? IHx IHl]; subst.
  now rewrite (IHx _ Hx), (IHes IHl Hes).
Qed.

(** C3, as amended.  When a run over a directory returns, the files it
    opened for tokenizing are, up to order, the files that the walk
    discovers under the directory (every file at any depth reached
    through directories that can be listed, which is every file under
    the directory when all of them can) whose suffix is in the extension
    list, minus those whose size exceeds the threshold; membership in the
    extension list is equality of strings, so a suffix in another case
    does not match.  An opened file that is read and tokenized enters the
    total with the number of its tokens; one that cannot be read or
    tokenized is opened all the same and enters with 0. *)
Theorem tokenized_files_are_the_eligible_ones a nm es w t w' :
  main a (Some (Dir nm es)) w = Done t w' ->
  exists visited,
    opened w' = (opened w ++ map fst visited)%list
    /\ Permutation visited
         (filter (eligible a (exts_of a))
            (files_under (root_of a) (Dir nm es)))
    /\ (forall p, In p (map fst visited) <->
                  exists f, In (p, f) (files_under (root_of a) (Dir nm es))
                            /\ In (suffix p) (exts_of a)
                            /\ exceeds a (p, f) = false)
    /\ (forall c, In c (files_under (root_of a) (Dir nm es)) ->
                  In c (all_files_under (root_of a) (Dir nm es)))
    /\ (listable (Dir nm es) = true ->
        files_under (root_of a) (Dir nm es)
        = all_files_under (root_of a) (Dir nm es))
    /\ total_tokens t = Zsum (map (fun c => token_count (snd c)) visited)
    /\ (forall c, In c visited ->
                  match content (snd c) with
                  | inr text =>
                      match encode text with
                      | inr tokens =>
                          token_count (snd c) = Z.of_nat (List.length tokens)
                      | inl _ => token_count (snd c) = 0
                      end
                  | inl _ => token_count (snd c) = 0
                  end).
Proof.
  intros H.
  destruct (main_walk_inv a (Some (Dir nm es)) w _ _ eq_refl H)
    as (Hl & -> & ->).
  pose proof (candidates_files_under (root_of a) (Dir nm es)) as P.
  cbv iota in P.
  set (l := candidates (root_of a) (Some (Dir nm es))) in *.
  set (found := files_under (root_of a) (Dir nm es)) in *.
  assert (PV : Permutation (filter (selected a (exts_of a)) l)
                 (filter (eligible a (exts_of a)) found)).
  { rewrite (selected_eligible _ _ _ Hl). apply filter_perm, P. }
  exists (filter (selected a (exts_of a)) l).
  split; [reflexivity|]. split; [exact PV|].
  split; [|split; [|split; [|split]]].
  - intros p. split.
    + intros Hin. apply (Permutation_in _ (Permutation_map fst PV)) in Hin.
      apply in_map_iff in Hin as ([p' f] & <- & Hin).
      apply filter_In in Hin as [Hin He]. exists f. split; [exact Hin|].
      unfold eligible, matches, Str.mem in He. simpl in He.
      apply andb_prop in He as [Hm Hx].
      apply existsb_exists in Hm as (e & He & Heq).
      apply String.eqb_eq in Heq. subst e.
      split; [exact He|]. simpl. now destruct (exceeds a (p', f)).
    + intros (f & Hin & Hs & Hx).
      apply (Permutation_in _ (Permutation_sym (Permutation_map fst PV))).
      apply in_map_iff. exists (p, f). split; [reflexivity|].
      apply filter_In. split; [exact Hin|].
      unfold eligible, matches, Str.mem. simpl. rewrite Hx.
      rewrite andb_true_r. apply existsb_exists. exists (suffix p).
      split; [exact Hs|apply String.eqb_refl].
  - intros c. apply files_under_all.
  - apply files_under_listable.
  - unfold after_walk, zero. cbn [total_tokens]. now rewrite Z.add_0_l.
  - intros c _. unfold token_count.
    destruct (content (snd c)) as [msg|text]; [reflexivity|].
    destruct (encode text); reflexivity.
Qed.

(** ** C4: the size threshold *)

(** One step of the inner loop on a matching file. *)
Lemma main_walk_file_matching a exts root file f n t w :
  st_size f = Some n ->
  Str.mem (suffix (joinpath root file)) exts = true ->
  main_walk_file a exts root (file, f) t w
  = if n <=? max_file_size a then
      Done (mktotals (total_tokens t + token_count f) (total_files t + 1)
              (skipped_files t))
        (mkworld
           (stdout w ++ diagnostic (joinpath root file) f
            ++ (if verbose a
                then [file_line (joinpath root file) (token_count f)]
                else []))
           (opened w ++ [joinpath root file]))
    else
      Done (mktotals (total_tokens t) (total_files t) (skipped_files t + 1))
        (mkworld
           (stdout w
            ++ (if verbose a then [skipped_line (joinpath root file)] else []))
           (opened w)).
Proof.
  intros Hn Hm. unfold main_walk_file, stat_size. rewrite Hm, Hn.
  unfold bind at 1. unfold ret at 1.
  destruct (n <=? max_file_size a).
  - unfold bind. rewrite count_tokens_in_file_spec.
    unfold print_if, print, ret, file_line.
    destruct (verbose a); simpl; rewrite <- ?app_assoc, ?app_nil_r;
      reflexivity.
  - unfold bind, print_if, print, ret, skipped_line.
    destruct (verbose a); simpl; rewrite ?app_nil_r; destruct w; reflexivity.
Qed.

(** C4.  The threshold is an inclusive upper bound, 1,048,576 bytes by
    default.  A candidate whose size is at most the threshold (equal to it
    included) is opened, tokenized and counted as processed; a candidate
    whose size exceeds it is counted as skipped and is not opened: the
    list of opened files is left as it was and no token is added.  This
    holds for a matching file of the walk and for a file named on the
    command line. *)
Theorem size_threshold_is_inclusive a exts root file nm f n t w :
  st_size f = Some n ->
  Str.mem (suffix (joinpath root file)) exts = true ->
  max_file_size (default_args (path a)) = 1048576
  /\ (n <= max_file_size a ->
      (exists out,
          main_walk_file a exts root (file, f) t w
          = Done (mktotals (total_tokens t + token_count f)
                    (total_files t + 1) (skipped_files t))
              (mkworld (stdout w ++ out) (opened w ++ [joinpath root file])))
      /\ (exists out,
             main a (Some (File nm f)) w
             = Done (mktotals (token_count f) 1 0)
                 (mkworld (stdout w ++ out) (opened w ++ [root_of a]))))
  /\ (max_file_size a < n ->
      main_walk_file a exts root (file, f) t w
      = Done (mktotals (total_tokens t) (total_files t) (skipped_files t + 1))
          (mkworld
             (stdout w
              ++ (if verbose a then [skipped_line (joinpath root file)]
                  else []))
             (opened w))
      /\ main a (Some (File nm f)) w
         = Done (mktotals 0 0 1)
             (mkworld
                (stdout w ++ [skipped_line (root_of a)]
                 ++ summary (mktotals 0 0 1))
                (opened w))).
Proof.
  intros Hn Hm. split; [reflexivity|]. split.
  - intros Hle. apply Z.leb_le in Hle. split.
    + rewrite (main_walk_file_matching _ _ _ _ _ _ _ _ Hn Hm), Hle.
      eexists. reflexivity.
    + rewrite (main_file_done _ _ _ _ _ Hn), Hle. eexists. reflexivity.
  - intros Hlt. apply Z.leb_gt in Hlt. split.
    + now rewrite (main_walk_file_matching _ _ _ _ _ _ _ _ Hn Hm), Hlt.
    + now rewrite (main_file_done _ _ _ _ _ Hn), Hlt.
Qed.

(** ** C5: a file that cannot be read *)

(** C5.  When opening, reading or decoding a file raises, the exception is
    caught inside [count_tokens_in_file]: the call returns 0 after printing
    one line that names the file and the message of the exception.  The
    loop then goes on with the next file, with no token added to the total
    (the file is still counted as processed); a run on that single file
    returns with a total of zero tokens. *)
Theorem read_failure_is_caught a exts root file nm f n msg rest t w :
  content f = inl msg ->
  st_size f = Some n ->
  n <= max_file_size a ->
  Str.mem (suffix (joinpath root file)) exts = true ->
  (forall p w0,
      count_tokens_in_file p f w0
      = Done 0 (mkworld (stdout w0 ++ [error_line p msg]) (opened w0 ++ [p])))
  /\ for_each ((file, f) :: rest) (main_walk_file a exts root) t w
     = for_each rest (main_walk_file a exts root)
         (mktotals (total_tokens t) (total_files t + 1) (skipped_files t))
         (mkworld
            (stdout w ++ error_line (joinpath root file) msg
               :: (if verbose a then [file_line (joinpath root file) 0]
                   else []))
            (opened w ++ [joinpath root file]))
  /\ main a (Some (File nm f)) w
     = Done (mktotals 0 1 0)
         (mkworld
            (stdout w ++ error_line (root_of a) msg
               :: (if verbose a then [file_line (root_of a) 0] else [])
               ++ summary (mktotals 0 1 0))
            (opened w ++ [root_of a])).
Proof.
  intros Hc Hn Hle Hm. apply Z.leb_le in Hle.
  assert (Ht : token_count f = 0) by (unfold token_count; now rewrite Hc).
  assert (Hd : forall p, diagnostic p f = [error_line p msg])
    by (intros p; unfold diagnostic; now rewrite Hc).
  split; [|split].
  - intros p w0. now rewrite count_tokens_in_file_spec, Ht, Hd.
  - cbn [for_each]. unfold bind at 1.
    rewrite (main_walk_file_matching _ _ _ _ _ _ _ _ Hn Hm), Hle.
    now rewrite Ht, Hd, Z.add_0_r.
  - rewrite (main_file_done _ _ _ _ _ Hn), Hle. cbv zeta.
    now rewrite Ht, Hd.
Qed.

(** ** C6: a file named on the command line *)

(** C6.  A file named on the command line is tokenized and counted as
    processed whenever its size is within the threshold, whatever the
    extension list is: the run does not depend on [--extensions] at all,
    so it is the same when the suffix of the file is not in the list. *)
Theorem named_file_ignores_extensions a e nm f n w :
  st_size f = Some n ->
  n <= max_file_size a ->
  main (with_extensions a e) (Some (File nm f)) w
  = main a (Some (File nm f)) w
  /\ exists out,
      main a (Some (File nm f)) w
      = Done (mktotals (token_count f) 1 0)
          (mkworld (stdout w ++ out) (opened w ++ [root_of a])).
Proof.
  intros Hn Hle. apply Z.leb_le in Hle. split.
  - rewrite !(main_file_done _ _ _ _ _ Hn). reflexivity.
  - rewrite (main_file_done _ _ _ _ _ Hn), Hle. eexists. reflexivity.
Qed.

(** ** C7: extensions given without their dot *)

Lemma split_no_comma s : has_comma s = false -> Str.split "," s = [s].
Proof.
  unfold has_comma. induction s as [|c s IH]; simpl; [reflexivity|].
  intros H. apply orb_false_elim in H as [Hc Hs].
  rewrite Hc, (IH Hs). reflexivity.
Qed.

Lemma split_field s rest :
  has_comma s = false ->
  Str.split "," (s ++ String "," rest) = s :: Str.split "," rest.
Proof.
  unfold has_comma. induction s as [|c s IH]; simpl; [reflexivity|].
  intros H. apply orb_false_elim in H as [Hc Hs].
  rewrite Hc, (IH Hs). reflexivity.
Qed.

(** Splitting at the commas undoes joining with commas. *)
Lemma split_join fields :
  fields <> [] ->
  Forall (fun s => has_comma s = false) fields ->
  Str.split "," (Str.join "," fields) = fields.
Proof.
  unfold Str.join. induction fields as [|x xs IH]; [congruence|].
  intros _ H. inversion H as [|? ? Hx Hxs]; subst.
  destruct xs as [|y ys].
  - simpl. now apply split_no_comma.
  - change (String.concat "," (x :: y :: ys))
      with (x ++ String "," (String.concat "," (y :: ys))).
    rewrite (split_field _ _ Hx). f_equal. apply IH; [discriminate|exact Hxs].
Qed.

Lemma dotted_startswith e : Str.startswith "." (dotted e) = true.
Proof.
  unfold dotted. destruct (Str.startswith "." e) eqn:E; [exact E|reflexivity].
Qed.

Lemma dotted_idempotent e : dotted (dotted e) = dotted e.
Proof.
  unfold dotted at 1. now rewrite dotted_startswith.
Qed.

Lemma dotted_no_comma e : has_comma e = false -> has_comma (dotted e) = false.
Proof.
  unfold dotted. destruct (Str.startswith "." e); [trivial|].
  unfold has_comma. simpl. trivial.
Qed.

Lemma parse_extensions_dotted s :
  Forall (fun e => Str.startswith "." e = true) (parse_extensions s).
Proof.
  unfold parse_extensions. apply Forall_forall. intros e He.
  apply in_map_iff in He as (x & <- & _). apply dotted_startswith.
Qed.

(** Joining the fields or joining them with their dots gives the same
    extension list. *)
Lemma parse_join_dotted fields :
  Forall (fun s => has_comma s = false) fields ->
  parse_extensions (Str.join "," (map dotted fields))
  = parse_extensions (Str.join "," fields).
Proof.
  intros H. destruct fields as [|x xs]; [reflexivity|].
  unfold parse_extensions.
  rewrite !split_join; try discriminate; try exact H.
  - rewrite map_map. apply map_ext. intros e. apply dotted_idempotent.
  - apply Forall_forall. intros e He.
    apply in_map_iff in He as (y & <- & Hy). apply dotted_no_comma.
    revert y Hy. now apply Forall_forall.
Qed.

(** [main] reads [--extensions] through [parse_extensions] only. *)
Lemma main_with_extensions a e1 e2 target w :
  parse_extensions e1 = parse_extensions e2 ->
  main (with_extensions a e1) target w = main (with_extensions a e2) target w.
Proof.
  intros E. unfold main. cbn [extensions path with_extensions].
  rewrite E. reflexivity.
Qed.

(** C7.  A run with [--extensions py,js] is the run with
    [--extensions .py,.js], output and counters alike, on every
    filesystem.  In general every comma-separated field that does not
    start with a dot gets one before any file is matched, so writing the
    dots or leaving them out gives the same run. *)
Theorem bare_extensions_equal_dotted a fields target w :
  Forall (fun s => has_comma s = false) fields ->
  main (with_extensions a "py,js") target w
  = main (with_extensions a ".py,.js") target w
  /\ main (with_extensions a (Str.join "," fields)) target w
     = main (with_extensions a (Str.join "," (map dotted fields))) target w
  /\ (fields <> [] ->
      parse_extensions (Str.join "," fields) = map dotted fields)
  /\ Forall (fun e => Str.startswith "." e = true)
       (parse_extensions (Str.join "," fields)).
Proof.
  intros H. split; [|split; [|split]].
  - apply main_with_extensions. reflexivity.
  - apply main_with_extensions. symmetry. now apply parse_join_dotted.
  - intros Hne. unfold parse_extensions. now rewrite split_join.
  - apply parse_extensions_dotted.
Qed.

(** ** C8: the format of a token count *)

Lemma drop_insert_commas s :
  has_comma s = false -> drop_commas (Fmt.insert_commas s) = s.
Proof.
  unfold has_comma. induction s as [|c s IH]; simpl; [reflexivity|].
  intros H. apply orb_false_elim in H as [Hc Hs]. rewrite Hc.
  destruct (_ && _); simpl; now rewrite (IH Hs).
Qed.

Lemma uint_no_comma d : has_comma (NilEmpty.string_of_uint d) = false.
Proof.
  induction d; simpl; auto.
Qed.

Lemma decimal_nonneg_no_comma n : 0 <= n -> has_comma (Fmt.decimal n) = false.
Proof.
  intros H. unfold Fmt.decimal. destruct n as [|p|p]; [reflexivity| |lia].
  simpl. destruct (Pos.to_uint p); try apply uint_no_comma. reflexivity.
Qed.

(** The grouping only adds commas: without them the digits of the count
    are back. *)
Lemma drop_commas_thousands n : drop_commas (Fmt.thousands n) = Fmt.decimal n.
Proof.
  unfold Fmt.thousands. destruct (Z.ltb_spec n 0) as [Hn|Hn].
  - destruct n as [|p|p]; try lia.
    change (- Z.neg p) with (Z.pos p).
    change (drop_commas ("-" ++ Fmt.insert_commas (Fmt.decimal (Z.pos p))))
      with (String "-" (drop_commas (Fmt.insert_commas (Fmt.decimal (Z.pos p))))).
    rewrite drop_insert_commas by (apply decimal_nonneg_no_comma; lia).
    unfold Fmt.decimal. simpl. destruct (Pos.to_uint p); reflexivity.
  - apply drop_insert_commas, decimal_nonneg_no_comma, Hn.
Qed.

(** C8.  The formatter prints the count with a comma between groups of
    three digits and the cost [count / 1_000_000 * 3], computed on floats,
    with two decimals: a count of 1,000,000 costs $3.00 and a count of 0
    costs $0.00, the count 1234567 is printed 1,234,567, and for every
    count the grouped digits without their commas are the digits of the
    count. *)
Theorem format_token_count_renders :
  format_token_count 1000000 = "1,000,000 tokens (≈$3.00 at $3/1M tokens)"
  /\ format_token_count 0 = "0 tokens (≈$0.00 at $3/1M tokens)"
  /\ format_token_count 1234567 = "1,234,567 tokens (≈$3.70 at $3/1M tokens)"
  /\ Fmt.thousands 1234567 = "1,234,567"
  /\ Fmt.fixed2 (Fmt.float_mul_int (Fmt.int_truediv 1000000 1000000) 3) = "3.00"
  /\ Fmt.fixed2 (Fmt.float_mul_int (Fmt.int_truediv 0 1000000) 3) = "0.00"
  /\ (forall count,
         format_token_count count
         = Fmt.thousands count ++ " tokens (≈$"
             ++ Fmt.fixed2 (Fmt.float_mul_int (Fmt.int_truediv count 1000000) 3)
             ++ " at $3/1M tokens)")
  /\ (forall count, drop_commas (Fmt.thousands count) = Fmt.decimal count).
Proof.
  do 6 (split; [vm_compute; reflexivity|]).
  split; [intros count; reflexivity|]. exact drop_commas_thousands.
Qed.

(** ** C9: the totals are a function of the tree *)

Lemma same_tree_refl n : same_tree n n.
Proof.
  induction n as [nm f|nm es IH|nm es _|nm e] using node_rect';
    try constructor.
  apply (same_Dir nm es es es); [|reflexivity].
  induction IH; constructor; assumption.
Qed.

Lemma same_tree_name n1 n2 : same_tree n1 n2 -> node_name n1 = node_name n2.
Proof. now destruct 1. Qed.

(** Two listings of a tree hold the same files at the same paths. *)
Lemma same_tree_files_under n1 :
  forall n2 p, same_tree n1 n2 ->
               Permutation (files_under p n1) (files_under p n2).
Proof.
  induction n1 as [nm f|nm es IH|nm es _|nm e] using node_rect';
    intros n2 p H; inversion H as [|? ? es' es'' HF HP| |]; subst;
    try reflexivity.
  simpl. transitivity
    (flat_map (fun e => files_under (joinpath p (node_name e)) e) es').
  - clear H HP. induction HF as [|e e' l l' He _ IHl]; simpl; [constructor|].
    inversion IH as [|? ? IHe IHl']; subst.
    apply Permutation_app.
    + rewrite <- (same_tree_name _ _ He). apply IHe, He.
    + apply IHl, IHl'.
  - apply Permutation_flat_map, HP.
Qed.

(** The counters of a walk do not depend on the order of the candidates. *)
Lemma after_walk_perm a exts l l' t :
  Permutation l l' -> after_walk a exts l t = after_walk a exts l' t.
Proof.
  intros P. unfold after_walk.
  rewrite (Zsum_perm _ _
             (Permutation_map (fun c => token_count (snd c))
                (filter_perm (selected a exts) _ _ P))).
  rewrite (Permutation_length (filter_perm (selected a exts) _ _ P)).
  rewrite (Permutation_length (filter_perm (oversized a exts) _ _ P)).
  reflexivity.
Qed.

(** What a run on anything but a file leaves to its caller. *)
Lemma totals_of_walk a target w :
  is_file target = false ->
  let l := candidates (root_of a) target in
  totals_of (main a target w)
  = match lookup_fails target with
    | Some _ => None
    | None =>
        if existsb (fatal (exts_of a)) l then None
        else Some (after_walk a (exts_of a) l zero)
    end.
Proof.
  intros Hf l. destruct (lookup_fails target) as [e|] eqn:Hr.
  { now rewrite (main_lookup_fails a target e w Hr). }
  destruct (existsb (fatal (exts_of a)) l) eqn:Hl.
  - destruct (main_walk_uncaught a target w Hr Hf Hl) as (e & w' & ->).
    reflexivity.
  - now rewrite (main_walk_done a target w Hr Hf Hl).
Qed.

Lemma same_tree_candidates p n1 n2 :
  same_tree n1 n2 ->
  Permutation (candidates p (Some n1)) (candidates p (Some n2)).
Proof.
  intros H.
  rewrite (candidates_files_under p n1), (candidates_files_under p n2).
  pose proof (same_tree_files_under n1 n2 p H) as P.
  destruct H; try reflexivity. exact P.
Qed.

(** C9.  The totals of a run (tokens, files processed, files skipped, or
    the fact that it dies of an uncaught exception and prints none) are
    determined by the arguments and by the tree: two runs on the same tree
    give the same totals, whatever was printed before and even when the
    directories list their entries in another order. *)
Theorem totals_are_deterministic a t1 t2 w1 w2 :
  same_target t1 t2 ->
  totals_of (main a t1 w1) = totals_of (main a t2 w2).
Proof.
  destruct t1 as [n1|], t2 as [n2|]; cbn [same_target]; try contradiction.
  2:{ intros _.
      now rewrite (totals_of_walk a None w1 eq_refl),
        (totals_of_walk a None w2 eq_refl). }
  intros H.
  destruct (is_file (Some n1)) eqn:Hf.
  - destruct n1 as [nm f| | |]; try discriminate. inversion H; subst.
    simpl in Hf. destruct (st_size f) as [n|] eqn:Hn; [|discriminate].
    now rewrite !(main_file_done _ _ _ _ _ Hn); destruct (_ <=? _).
  - assert (Hf2 : is_file (Some n2) = false).
    { destruct H; try reflexivity. exact Hf. }
    assert (Hr : lookup_fails (Some n2) = lookup_fails (Some n1)).
    { destruct H; reflexivity. }
    rewrite (totals_of_walk a _ w1 Hf), (totals_of_walk a _ w2 Hf2), Hr.
    pose proof (same_tree_candidates (root_of a) _ _ H) as P.
    rewrite (existsb_perm _ _ _ P), (after_walk_perm _ _ _ _ _ P).
    reflexivity.
Qed.

(** ** C10: the suffix of a file name *)

Lemma name_joinpath root file :
  is_anchor file = false -> name (joinpath root file) = file.
Proof.
  intros H. unfold name, joinpath.
  destruct root as [|r [|r' rs]]; simpl.
  - now rewrite H.
  - reflexivity.
  - apply (last_last (r' :: rs) file "").
Qed.

(** The suffix of a walked file is read off its name alone. *)
Lemma suffix_joinpath root file :
  is_anchor file = false -> suffix (joinpath root file) = suffix [file].
Proof.
  intros H. unfold suffix. rewrite (name_joinpath _ _ H).
  unfold name. now rewrite H.
Qed.

Lemma substring_all s : String.substring 0 (String.length s) s = s.
Proof. induction s as [|c s IH]; simpl; [reflexivity|now rewrite IH]. Qed.

Lemma rfind_lower c s : -1 <= Str.rfind c s.
Proof.
  induction s as [|a s IH]; simpl; [lia|].
  destruct (Z.leb_spec 0 (Str.rfind c s)); [lia|].
  destruct (Ascii.eqb a c); lia.
Qed.

(** The slice from the last occurrence of a character starts with that
    character and holds no other occurrence. *)
Lemma rfind_slice c s :
  0 <= Str.rfind c s ->
  Str.rfind c (Str.slice_from (Str.rfind c s) s) = 0.
Proof.
  induction s as [|a s IH]; simpl; [lia|].
  destruct (Z.leb_spec 0 (Str.rfind c s)) as [Hj|Hj].
  - intros _. unfold Str.slice_from in *.
    replace (Z.to_nat (Str.rfind c s + 1)) with (S (Z.to_nat (Str.rfind c s)))
      by lia.
    simpl. apply IH, Hj.
  - destruct (Ascii.eqb a c) eqn:E; [intros _|lia].
    unfold Str.slice_from. simpl. rewrite substring_all. simpl.
    destruct (Z.leb_spec 0 (Str.rfind c s)); [lia|]. now rewrite E.
Qed.

(** A suffix holds one dot at most, its first character. *)
Lemma suffix_one_dot p : Str.rfind "." (suffix p) <= 0.
Proof.
  unfold suffix.
  destruct (_ && _) eqn:E; [|simpl; lia].
  apply andb_prop in E as [Hi _]. apply Z.ltb_lt in Hi.
  rewrite rfind_slice; lia.
Qed.

Lemma mem_empty_dotted s : Str.mem "" (parse_extensions s) = false.
Proof.
  unfold Str.mem. pose proof (parse_extensions_dotted s) as H.
  induction H as [|e l He _ IH]; cbn [existsb]; [reflexivity|].
  rewrite IH. destruct e; [discriminate|reflexivity].
Qed.

(** C10.  Matching reads the suffix after the last dot of the file name.
    A file named [.py] has the empty suffix, which no entry of the
    extension list equals, so the walk passes over it, [.py] in the list
    or not.  The suffix of [a.tar.gz] is [.gz]: the file matches exactly
    when [.gz] is in the list, and an entry with a dot after its first
    character, such as [.tar.gz], equals the suffix of no file. *)
Theorem suffix_is_after_the_last_dot :
  (forall root, suffix (joinpath root ".py") = "")
  /\ (forall a s root f t w,
         main_walk_file a (parse_extensions s) root (".py", f) t w = Done t w)
  /\ (forall root, suffix (joinpath root "a.tar.gz") = ".gz")
  /\ (forall exts root,
         Str.mem (suffix (joinpath root "a.tar.gz")) exts = Str.mem ".gz" exts)
  /\ (forall a root f t w,
         main_walk_file a (parse_extensions ".tar.gz") root ("a.tar.gz", f) t w
         = Done t w)
  /\ (forall p e, 0 < Str.rfind "." e -> suffix p <> e)
  /\ (forall a e root file f t w,
         0 < Str.rfind "." e ->
         main_walk_file a [e] root (file, f) t w = Done t w).
Proof.
  assert (Hlast : forall p e, 0 < Str.rfind "." e -> suffix p <> e).
  { intros p e He <-. pose proof (suffix_one_dot p). lia. }
  split; [|split; [|split; [|split; [|split; [|split]]]]].
  - intros root. now rewrite suffix_joinpath.
  - intros a s root f t w. unfold main_walk_file.
    rewrite suffix_joinpath by reflexivity.
    change (suffix [".py"]) with "".
    now rewrite mem_empty_dotted.
  - intros root. now rewrite suffix_joinpath.
  - intros exts root. now rewrite suffix_joinpath.
  - intros a root f t w. unfold main_walk_file.
    now rewrite suffix_joinpath.
  - exact Hlast.
  - intros a e root file f t w He. unfold main_walk_file, Str.mem. simpl.
    destruct (String.eqb_spec (suffix (joinpath root file)) e) as [E|E];
      [now apply Hlast in E|reflexivity].
Qed.

(** * Further properties of the code *)

(** ** [count_tokens_in_file] *)

(** X1.  When the file is read but the tokenizer raises, the exception is
    caught like a read failure: the call prints one line naming the file
    and the message, and returns 0. *)
Theorem tokenizer_failure_is_caught p f text msg w :
  content f = inr text ->
  encode text = inl msg ->
  count_tokens_in_file p f w
  = Done 0 (mkworld (stdout w ++ [error_line p msg]) (opened w ++ [p])).
Proof.
  intros Hc He. rewrite count_tokens_in_file_spec.
  unfold token_count, diagnostic. now rewrite Hc, He.
Qed.

(** X2.  [count_tokens_in_file] lets no exception escape.  It opens the
    file once and returns a count that is not negative; it prints
    nothing, or it prints one error line and then the count is 0; and
    when the file is read and tokenized the count is the number of tokens
    and nothing is printed. *)
Theorem count_tokens_in_file_always_returns p f w :
  exists n out,
    count_tokens_in_file p f w
    = Done n (mkworld (stdout w ++ out) (opened w ++ [p]))
    /\ 0 <= n
    /\ (out = [] \/ (n = 0 /\ exists msg, out = [error_line p msg]))
    /\ (forall text tokens,
           content f = inr text -> encode text = inr tokens ->
           n = Z.of_nat (List.length tokens) /\ out = []).
Proof.
  exists (token_count f), (diagnostic p f).
  split; [apply count_tokens_in_file_spec|].
  split; [apply token_count_nonneg|].
  unfold token_count, diagnostic. split.
  - destruct (content f) as [msg|text]; [right; eauto|].
    destruct (encode text) as [msg|tokens]; [right; eauto|now left].
  - intros text tokens Hc He. now rewrite Hc, He.
Qed.

(** ** Runs on a file *)

Lemma is_file_inv target :
  is_file target = true ->
  exists nm f n, target = Some (File nm f) /\ st_size f = Some n.
Proof.
  destruct target as [[nm f|nm es|nm es|nm e]|]; simpl; try discriminate.
  destruct (st_size f) as [n|] eqn:E; [|discriminate]. eauto.
Qed.

(** X3.  A run on a path that is a file always returns, and it counts the
    file once: either the file was opened and counted as processed, or it
    was not opened, no token was added and it was counted as skipped. *)
Theorem file_run_counts_one a target w :
  is_file target = true ->
  exists t out visited,
    main a target w
    = Done t (mkworld (stdout w ++ out ++ summary t) (opened w ++ visited))
    /\ total_files t + skipped_files t = 1
    /\ ((visited = [root_of a] /\ total_files t = 1)
        \/ (visited = [] /\ skipped_files t = 1 /\ total_tokens t = 0)).
Proof.
  intros H. destruct (is_file_inv _ H) as (nm & f & n & -> & Hn).
  rewrite (main_file_done _ _ _ _ _ Hn).
  destruct (n <=? max_file_size a); cbv zeta.
  - exists (mktotals (token_count f) 1 0),
      (diagnostic (root_of a) f
       ++ (if verbose a then [file_line (root_of a) (token_count f)] else []))%list,
      [root_of a].
    rewrite <- app_assoc. split; [reflexivity|]. simpl. auto.
  - exists (mktotals 0 0 1), [skipped_line (root_of a)], [].
    rewrite app_nil_r. split; [reflexivity|]. simpl. auto.
Qed.

(** ** Counters and effects *)

Lemma Zsum_nonneg l : Forall (fun x => 0 <= x) l -> 0 <= Zsum l.
Proof. induction 1; simpl; lia. Qed.

Lemma token_counts_nonneg (l : list (Path * file)) :
  Forall (fun x => 0 <= x) (map (fun c => token_count (snd c)) l).
Proof.
  apply Forall_forall. intros x Hx.
  apply in_map_iff in Hx as (c & <- & _). apply token_count_nonneg.
Qed.

(** X4.  When a run over a directory returns, its total is the sum of the
    counts of the files that the walk discovers under the directory (not
    those under a subdirectory it cannot list or behind a link to a
    directory) whose suffix is in the extension list and whose size does
    not exceed the threshold; files that could not be read or tokenized
    enter the sum with 0, and the total is not negative. *)
Theorem total_tokens_is_the_sum a nm es w t w' :
  main a (Some (Dir nm es)) w = Done t w' ->
  total_tokens t
  = Zsum (map (fun c => token_count (snd c))
            (filter (eligible a (exts_of a))
               (files_under (root_of a) (Dir nm es))))
  /\ 0 <= total_tokens t.
Proof.
  intros H.
  destruct (main_walk_inv a (Some (Dir nm es)) w _ _ eq_refl H) as (Hl & -> & _).
  pose proof (candidates_files_under (root_of a) (Dir nm es)) as P.
  unfold after_walk, zero. cbn [total_tokens]. rewrite Z.add_0_l.
  rewrite (selected_eligible _ _ _ Hl).
  rewrite <- (Zsum_perm _ _
                (Permutation_map (fun c => token_count (snd c))
                   (filter_perm (eligible a (exts_of a)) _ _ P))).
  split; [reflexivity|]. apply Zsum_nonneg, token_counts_nonneg.
Qed.

(** X5.  Whatever the path denotes, a run that returns has opened as many
    files as it counts as processed: a processed file is opened once, a
    skipped or unmatched file is never opened. *)
Theorem opened_files_are_the_processed_ones a target w t w' :
  main a target w = Done t w' ->
  Z.of_nat (List.length (opened w'))
  = Z.of_nat (List.length (opened w)) + total_files t.
Proof.
  intros H. destruct (is_file target) eqn:Hf.
  - destruct (is_file_inv _ Hf) as (nm & f & n & -> & Hn).
    rewrite (main_file_done _ _ _ _ _ Hn) in H.
    destruct (n <=? max_file_size a); injection H as <- <-; simpl.
    + rewrite length_app. simpl. lia.
    + lia.
  - destruct (main_walk_inv a target w _ _ Hf H) as (_ & -> & ->).
    simpl. rewrite length_app, length_map. lia.
Qed.

(** ** Runs that die *)

Lemma existsb_first {A} (f : A -> bool) (l : list A) :
  existsb f l = true ->
  exists l1 c l2,
    l = (l1 ++ c :: l2)%list /\ existsb f l1 = false /\ f c = true.
Proof.
  induction l as [|x l IH]; simpl; [discriminate|].
  destruct (f x) eqn:Hx; simpl.
  - intros _. exists [], x, l. auto.
  - intros H. destruct (IH H) as (l1 & c & l2 & -> & H1 & Hc).
    exists (x :: l1), c, l2. simpl. rewrite Hx. auto.
Qed.

(** The loop stops at the first matching candidate on which [stat] raises,
    with the candidates before it handled and none after it touched. *)
Lemma walk_abort a exts l1 c l2 t w :
  existsb (fatal exts) l1 = false ->
  fatal exts c = true ->
  for_each (l1 ++ c :: l2) (visit a exts) t w
  = Uncaught "OSError"
      (mkworld (stdout w ++ flat_map (lines a exts) l1)
         (opened w ++ map fst (filter (selected a exts) l1))).
Proof.
  intros H1 Hc. rewrite for_each_app. unfold bind.
  rewrite (walk_done _ _ _ _ _ H1). cbn [for_each]. unfold bind.
  destruct c as [fp f]. unfold fatal, matches, stat_fails in Hc. simpl in Hc.
  unfold visit, stat_size, bind.
  destruct (Str.mem (suffix fp) exts); [|discriminate].
  destruct (st_size f); [discriminate|]. reflexivity.
Qed.

Lemma string_length_app (s1 s2 : string) :
  String.length (s1 ++ s2) = (String.length s1 + String.length s2)%nat.
Proof. induction s1 as [|c s1 IH]; simpl; [reflexivity|now rewrite IH]. Qed.

Lemma file_line_not_header p n : file_line p n <> summary_header.
Proof.
  intros H. apply (f_equal String.length) in H.
  unfold file_line, format_token_count in H.
  rewrite !string_length_app in H. simpl in H. lia.
Qed.

Lemma error_line_not_header p msg : error_line p msg <> summary_header.
Proof. unfold error_line, summary_header. simpl. discriminate. Qed.

Lemma skipped_line_not_header p : skipped_line p <> summary_header.
Proof. unfold skipped_line, summary_header. simpl. discriminate. Qed.

Lemma diagnostic_not_header p f : ~ In summary_header (diagnostic p f).
Proof.
  unfold diagnostic.
  destruct (content f) as [msg|text]; simpl.
  - intros [H|[]]. now apply error_line_not_header in H.
  - destruct (encode text) as [msg|tokens]; simpl; [|tauto].
    intros [H|[]]. now apply error_line_not_header in H.
Qed.

(** No line printed for a candidate is the first line of the summary. *)
Lemma lines_not_header a exts l :
  ~ In summary_header (flat_map (lines a exts) l).
Proof.
  intros H. apply in_flat_map in H as (c & _ & H). unfold lines in H.
  destruct (selected a exts c).
  - apply in_app_or in H as [H|H]; [now apply diagnostic_not_header in H|].
    destruct (verbose a); [|contradiction].
    destruct H as [H|[]]. now apply file_line_not_header in H.
  - destruct (oversized a exts c); [|contradiction].
    destruct (verbose a); [|contradiction].
    destruct H as [H|[]]. now apply skipped_line_not_header in H.
Qed.

(** A run on anything but a file stops at the first matching candidate
    on which [stat] raises. *)
Lemma main_walk_abort a target w before c after :
  lookup_fails target = None ->
  is_file target = false ->
  candidates (root_of a) target = (before ++ c :: after)%list ->
  existsb (fatal (exts_of a)) before = false ->
  fatal (exts_of a) c = true ->
  main a target w
  = Uncaught "OSError"
      (mkworld (stdout w ++ flat_map (lines a (exts_of a)) before)
         (opened w ++ map fst (filter (selected a (exts_of a)) before))).
Proof.
  intros Hr Hf E Hb Hc. unfold main.
  unfold bind at 1. rewrite path_is_file_spec, Hr, Hf.
  unfold bind at 1. rewrite main_walk_candidates.
  fold (exts_of a) (root_of a). rewrite E.
  now rewrite (walk_abort a _ _ _ _ _ _ Hb Hc).
Qed.

(** X6.  A run dies of an uncaught exception in two places only.  One is
    [path.is_file()], when [stat] raises on the path itself an error
    that is not one of a missing path: the run dies with that error
    before anything is printed or opened.  The other is the walk, at the
    first candidate, in the order of the walk, whose suffix is in the
    extension list and on which [stat] raises: the candidates before it
    were handled as usual, none after it is opened, and no summary is
    printed. *)
Theorem run_dies_at_first_failing_stat a target w e w' :
  main a target w = Uncaught e w' ->
  (lookup_fails target = Some e /\ w' = w)
  \/ (lookup_fails target = None
      /\ exists before c after,
          candidates (root_of a) target = (before ++ c :: after)%list
          /\ Str.mem (suffix (fst c)) (exts_of a) = true
          /\ st_size (snd c) = None
          /\ existsb (fatal (exts_of a)) before = false
          /\ e = "OSError"
          /\ w' = mkworld (stdout w ++ flat_map (lines a (exts_of a)) before)
                    (opened w
                     ++ map fst (filter (selected a (exts_of a)) before))
          /\ ~ In summary_header (flat_map (lines a (exts_of a)) before)).
Proof.
  intros H. destruct (lookup_fails target) as [e0|] eqn:Hr.
  { left. rewrite (main_lookup_fails a target e0 w Hr) in H.
    injection H as <- <-. auto. }
  right. split; [reflexivity|].
  destruct (is_file target) eqn:Hf.
  { destruct (is_file_inv _ Hf) as (nm & f & n & -> & Hn).
    rewrite (main_file_done _ _ _ _ _ Hn) in H.
    destruct (n <=? max_file_size a); discriminate. }
  destruct (existsb (fatal (exts_of a)) (candidates (root_of a) target)) eqn:Hl.
  2:{ rewrite (main_walk_done a target w Hr Hf Hl) in H. discriminate. }
  destruct (existsb_first _ _ Hl) as (before & c & after & E & Hb & Hc).
  exists before, c, after. split; [exact E|].
  rewrite (main_walk_abort a target w _ _ _ Hr Hf E Hb Hc) in H.
  injection H as <- <-.
  unfold fatal, matches, stat_fails in Hc.
  apply andb_prop in Hc as [Hm Hs].
  repeat split; auto using lines_not_header.
  destruct (st_size (snd c)); [discriminate|reflexivity].
Qed.

(** X14.  A run that returns prints the summary block once, as its last
    four lines, with the counters it returns; no line printed before it
    is the first line of a summary. *)
Theorem summary_is_printed_once_and_last a target w t w' :
  main a target w = Done t w' ->
  exists out,
    stdout w' = (stdout w ++ out ++ summary t)%list
    /\ ~ In summary_header out.
Proof.
  intros H. destruct (is_file target) eqn:Hf.
  - destruct (is_file_inv _ Hf) as (nm & f & n & -> & Hn).
    rewrite (main_file_done _ _ _ _ _ Hn) in H.
    destruct (n <=? max_file_size a); injection H as <- <-; cbn [stdout].
    + exists (diagnostic (root_of a) f
              ++ (if verbose a then [file_line (root_of a) (token_count f)]
                  else []))%list.
      rewrite <- app_assoc. split; [reflexivity|].
      intros Hin. apply in_app_or in Hin as [Hin|Hin];
        [now apply diagnostic_not_header in Hin|].
      destruct (verbose a); [|contradiction].
      destruct Hin as [Hin|[]]. now apply file_line_not_header in Hin.
    + exists [skipped_line (root_of a)]. split; [reflexivity|].
      intros [Hin|[]]. now apply skipped_line_not_header in Hin.
  - destruct (main_walk_inv a target w _ _ Hf H) as (_ & _ & ->).
    cbn [stdout]. eexists. split; [reflexivity|]. apply lines_not_header.
Qed.

(** ** What the options change *)

(** What a run on anything but a file leaves opened, returned or not. *)
Lemma opened_of_walk a target w :
  is_file target = false ->
  exists l,
    opened (world_of (main a target w))
    = (opened w ++ map fst (filter (selected a (exts_of a)) l))%list
    /\ forall a', exts_of a' = exts_of a -> root_of a' = root_of a ->
         opened (world_of (main a' target w))
         = (opened w ++ map fst (filter (selected a' (exts_of a)) l))%list.
Proof.
  intros Hf. destruct (lookup_fails target) as [e|] eqn:Hlk.
  { exists []. split.
    - rewrite (main_lookup_fails a target e w Hlk). simpl.
      now rewrite app_nil_r.
    - intros a' _ _. rewrite (main_lookup_fails a' target e w Hlk). simpl.
      now rewrite app_nil_r. }
  destruct (existsb (fatal (exts_of a)) (candidates (root_of a) target)) eqn:Hl.
  - destruct (existsb_first _ _ Hl) as (before & c & after & E & Hb & Hc).
    exists before.
    assert (R : forall a', exts_of a' = exts_of a -> root_of a' = root_of a ->
                  main a' target w
                  = Uncaught "OSError"
                      (mkworld (stdout w ++ flat_map (lines a' (exts_of a)) before)
                         (opened w
                          ++ map fst (filter (selected a' (exts_of a)) before)))).
    { intros a' He Hr. rewrite <- He in Hb, Hc. rewrite <- Hr in E.
      rewrite (main_walk_abort a' target w _ _ _ Hlk Hf E Hb Hc).
      now rewrite He. }
    split.
    + now rewrite (R a eq_refl eq_refl).
    + intros a' He Hr. now rewrite (R a' He Hr).
  - exists (candidates (root_of a) target). split.
    + now rewrite (main_walk_done a target w Hlk Hf Hl).
    + intros a' He Hr. rewrite <- He, <- Hr in Hl.
      rewrite (main_walk_done a' target w Hlk Hf Hl). simpl.
      now rewrite He, Hr.
Qed.

(** X7.  [--verbose] changes the output only: with or without it a run
    returns the same counters, or dies all the same, and opens the same
    files in the same order. *)
Theorem verbose_changes_output_only a b target w :
  totals_of (main (with_verbose a b) target w) = totals_of (main a target w)
  /\ opened (world_of (main (with_verbose a b) target w))
     = opened (world_of (main a target w)).
Proof.
  destruct (is_file target) eqn:Hf.
  - destruct (is_file_inv _ Hf) as (nm & f & n & -> & Hn).
    rewrite !(main_file_done _ _ _ _ _ Hn).
    change (max_file_size (with_verbose a b)) with (max_file_size a).
    destruct (n <=? max_file_size a); split; reflexivity.
  - split.
    + rewrite !(totals_of_walk _ _ _ Hf). reflexivity.
    + destruct (opened_of_walk a target w Hf) as (l & E1 & E2).
      rewrite E1, (E2 (with_verbose a b) eq_refl eq_refl). reflexivity.
Qed.

Lemma quiet_lines a exts l :
  verbose a = false ->
  flat_map (lines a exts) l
  = flat_map (fun c => diagnostic (fst c) (snd c)) (filter (selected a exts) l).
Proof.
  intros Hv. induction l as [|c l IH]; simpl; [reflexivity|].
  unfold lines at 1. rewrite Hv.
  destruct (selected a exts c); simpl.
  - rewrite app_nil_r. now rewrite IH.
  - destruct (oversized a exts c); exact IH.
Qed.

(** X15.  Without [--verbose] a run over a directory prints nothing for a
    file it tokenizes and nothing for a file it skips: its output is the
    error lines of the processed files that could not be read or
    tokenized, in the order of the walk, and then the summary. *)
Theorem quiet_run_prints_errors_and_summary a nm es w t w' :
  verbose a = false ->
  main a (Some (Dir nm es)) w = Done t w' ->
  stdout w'
  = (stdout w
     ++ flat_map (fun c => diagnostic (fst c) (snd c))
          (filter (eligible a (exts_of a))
             (candidates (root_of a) (Some (Dir nm es))))
     ++ summary t)%list.
Proof.
  intros Hv H.
  destruct (main_walk_inv a (Some (Dir nm es)) w _ _ eq_refl H) as (Hl & _ & ->).
  cbn [stdout]. rewrite (quiet_lines _ _ _ Hv).
  now rewrite (selected_eligible _ _ _ Hl).
Qed.

Lemma mem_In x l : Str.mem x l = true <-> In x l.
Proof.
  unfold Str.mem. rewrite existsb_exists. split.
  - intros (y & Hy & E). apply String.eqb_eq in E. now subst.
  - intros H. exists x. split; [exact H|apply String.eqb_refl].
Qed.

Lemma mem_same_members l1 l2 :
  (forall x, In x l1 <-> In x l2) -> forall x, Str.mem x l1 = Str.mem x l2.
Proof.
  intros H x. destruct (Str.mem x l1) eqn:E1, (Str.mem x l2) eqn:E2;
    try reflexivity.
  - apply mem_In, H, mem_In in E1. congruence.
  - apply mem_In, H, mem_In in E2. congruence.
Qed.

(** X8.  The extension list is used as a set: two values of
    [--extensions] that give lists with the same members, in any order
    and with any repetition, give the same run. *)
Theorem extensions_are_used_as_a_set a e1 e2 target w :
  (forall x, In x (parse_extensions e1) <-> In x (parse_extensions e2)) ->
  main (with_extensions a e1) target w = main (with_extensions a e2) target w.
Proof.
  intros H. pose proof (mem_same_members _ _ H) as Hm.
  unfold main. cbn [extensions path with_extensions].
  unfold bind at 1 4. destruct (path_is_file target w) as [[|] wf|e wf];
    [reflexivity| |reflexivity].
  unfold bind at 1 3.
  assert (E : forall t0 w0,
             main_walk (with_extensions a e1) (parse_extensions e1)
               (Path_of (path a)) target t0 w0
             = main_walk (with_extensions a e2) (parse_extensions e2)
                 (Path_of (path a)) target t0 w0).
  { intros t0 w0. unfold main_walk. apply for_each_ext.
    intros [[root ds] files] t1 w1. apply for_each_ext.
    intros [file f] t2 w2. unfold main_walk_file. now rewrite Hm. }
  now rewrite E.
Qed.

(** ** The extension list *)

Lemma map_dotted_id l :
  Forall (fun e => Str.startswith "." e = true) l -> map dotted l = l.
Proof.
  induction 1 as [|e l He _ IH]; simpl; [reflexivity|].
  unfold dotted at 1. now rewrite He, IH.
Qed.

(** X9.  Parsing undoes joining: a list of entries that all start with a
    dot and hold no comma, joined with commas as the parser's default
    does, is parsed back to the same list. *)
Theorem parse_join_round_trip l :
  l <> [] ->
  Forall (fun e => has_comma e = false) l ->
  Forall (fun e => Str.startswith "." e = true) l ->
  parse_extensions (Str.join "," l) = l.
Proof.
  intros Hne Hc Hd. unfold parse_extensions.
  rewrite (split_join _ Hne Hc). now apply map_dotted_id.
Qed.

Lemma split_not_nil s : Str.split "," s <> [].
Proof.
  destruct s as [|c s]; simpl; [discriminate|].
  destruct (Ascii.eqb c ","); [discriminate|].
  destruct (Str.split "," s); discriminate.
Qed.

Lemma split_fields_no_comma s :
  Forall (fun e => has_comma e = false) (Str.split "," s).
Proof.
  induction s as [|c s IH]; simpl; [repeat constructor|].
  destruct (Ascii.eqb c ",") eqn:E.
  - constructor; [reflexivity|exact IH].
  - destruct (Str.split "," s) as [|x xs]; [repeat constructor; simpl|].
    + unfold has_comma. simpl. now rewrite E.
    + inversion IH as [|? ? Hx Hxs]; subst. constructor; [|exact Hxs].
      unfold has_comma in *. simpl. now rewrite E.
Qed.

(** X10.  The parsed list is never empty, holds no comma, and is a fixed
    point: joined with commas and parsed again it is the same list. *)
Theorem parse_extensions_is_stable s :
  parse_extensions s <> []
  /\ Forall (fun e => has_comma e = false) (parse_extensions s)
  /\ parse_extensions (Str.join "," (parse_extensions s)) = parse_extensions s.
Proof.
  pose proof (split_not_nil s) as Hne.
  pose proof (split_fields_no_comma s) as Hc.
  split; [|split].
  - unfold parse_extensions. destruct (Str.split "," s); [congruence|discriminate].
  - unfold parse_extensions. apply Forall_forall. intros e He.
    apply in_map_iff in He as (x & <- & Hx). apply dotted_no_comma.
    revert x Hx. now apply Forall_forall.
  - unfold parse_extensions at 2 3.
    rewrite (parse_join_dotted _ Hc). unfold parse_extensions.
    now rewrite (split_join _ Hne Hc).
Qed.

(** ** Files that do not match *)

Lemma no_match_quiet a exts l :
  forallb (fun c => negb (matches exts c)) l = true ->
  existsb (fatal exts) l = false
  /\ filter (selected a exts) l = []
  /\ filter (oversized a exts) l = []
  /\ flat_map (lines a exts) l = [].
Proof.
  induction l as [|c l IH]; simpl; [auto|].
  intros H. apply andb_prop in H as [Hc Hl].
  destruct (IH Hl) as (H1 & H2 & H3 & H4).
  apply negb_true_iff in Hc.
  unfold fatal, selected, oversized, lines in *. unfold selected, oversized.
  rewrite Hc. simpl. auto.
Qed.

(** X11.  A file whose suffix is not in the extension list is never
    opened and [stat] is never called on it: a run over a directory in
    which no file that the walk discovers matches returns with all
    counters at zero and prints the summary only, even when [stat] or
    reading would fail on every file. *)
Theorem unmatched_files_are_left_alone a nm es w :
  (forall p f, In (p, f) (files_under (root_of a) (Dir nm es)) ->
               Str.mem (suffix p) (exts_of a) = false) ->
  main a (Some (Dir nm es)) w
  = Done zero (mkworld (stdout w ++ summary zero) (opened w)).
Proof.
  intros H.
  pose proof (candidates_files_under (root_of a) (Dir nm es)) as P.
  assert (Hall : forallb (fun c => negb (matches (exts_of a) c))
                   (candidates (root_of a) (Some (Dir nm es))) = true).
  { apply forallb_forall. intros [p f] Hin.
    apply (Permutation_in _ P) in Hin. unfold matches. simpl.
    now rewrite (H p f Hin). }
  destruct (no_match_quiet a _ _ Hall) as (H1 & H2 & H3 & H4).
  rewrite (main_walk_done a (Some (Dir nm es)) w eq_refl eq_refl H1).
  cbv zeta.
  unfold after_walk. rewrite H2, H3, H4. simpl.
  now rewrite app_nil_r.
Qed.

(** ** The threshold *)

Lemma filter_length_le {A} (f g : A -> bool) (l : list A) :
  (forall x, f x = true -> g x = true) ->
  (List.length (filter f l) <= List.length (filter g l))%nat.
Proof.
  intros H. induction l as [|x l IH]; simpl; [lia|].
  destruct (f x) eqn:Hf.
  - rewrite (H x Hf). simpl. lia.
  - destruct (g x); simpl; lia.
Qed.

Lemma Zsum_filter_le {A} (f g : A -> bool) (v : A -> Z) (l : list A) :
  (forall x, f x = true -> g x = true) ->
  (forall x, 0 <= v x) ->
  Zsum (map v (filter f l)) <= Zsum (map v (filter g l)).
Proof.
  intros H Hv. induction l as [|x l IH]; simpl; [lia|].
  destruct (f x) eqn:Hf.
  - rewrite (H x Hf). simpl. lia.
  - destruct (g x); simpl; [pose proof (Hv x)|]; lia.
Qed.

Lemma selected_larger a m1 m2 exts c :
  m1 <= m2 ->
  selected (with_max_file_size a m1) exts c = true ->
  selected (with_max_file_size a m2) exts c = true.
Proof.
  intros Hm. unfold selected, exceeds. cbn [max_file_size with_max_file_size].
  destruct (matches exts c); [|discriminate]. simpl.
  destruct (stat_fails c); [now rewrite andb_false_r|].
  destruct (st_size (snd c)) as [n|]; [|trivial].
  rewrite !andb_true_r, !negb_true_iff, !Z.ltb_ge. lia.
Qed.

Lemma oversized_smaller a m1 m2 exts c :
  m1 <= m2 ->
  oversized (with_max_file_size a m2) exts c = true ->
  oversized (with_max_file_size a m1) exts c = true.
Proof.
  intros Hm. unfold oversized, exceeds. cbn [max_file_size with_max_file_size].
  destruct (matches exts c); [|discriminate]. simpl.
  destruct (st_size (snd c)) as [n|]; [|trivial].
  rewrite !Z.ltb_lt. lia.
Qed.

(** X12.  Raising [--max-file-size] never loses a file: if the run with
    the smaller threshold returns, the run with the larger one returns
    too, with at least as many files processed, at most as many skipped,
    at least as many tokens, and the same number of files processed or
    skipped. *)
Theorem larger_threshold_processes_more a m1 m2 target w t1 w1 :
  m1 <= m2 ->
  main (with_max_file_size a m1) target w = Done t1 w1 ->
  exists t2 w2,
    main (with_max_file_size a m2) target w = Done t2 w2
    /\ total_files t1 <= total_files t2
    /\ skipped_files t2 <= skipped_files t1
    /\ total_tokens t1 <= total_tokens t2
    /\ total_files t1 + skipped_files t1 = total_files t2 + skipped_files t2.
Proof.
  intros Hm H. destruct (is_file target) eqn:Hf.
  - destruct (is_file_inv _ Hf) as (nm & f & n & -> & Hn).
    rewrite (main_file_done _ _ _ _ _ Hn) in H.
    rewrite (main_file_done _ _ _ _ _ Hn).
    cbn [max_file_size with_max_file_size] in *.
    pose proof (token_count_nonneg f) as Ht.
    destruct (Z.leb_spec n m1), (Z.leb_spec n m2); try lia;
      cbv zeta in H; injection H as <- <-; eexists _, _;
      (split; [reflexivity|]); simpl; lia.
  - destruct (main_walk_inv _ target w _ _ Hf H) as (Hl & -> & _).
    change (exts_of (with_max_file_size a m1)) with (exts_of a) in *.
    change (root_of (with_max_file_size a m1)) with (root_of a) in *.
    set (l := candidates (root_of a) target) in *.
    assert (Hl2 : existsb (fatal (exts_of (with_max_file_size a m2)))
                    (candidates (root_of (with_max_file_size a m2)) target)
                  = false) by exact Hl.
    rewrite (main_walk_done _ target w (main_done_lookup _ _ _ _ _ H) Hf Hl2).
    cbv zeta.
    change (exts_of (with_max_file_size a m2)) with (exts_of a).
    change (root_of (with_max_file_size a m2)) with (root_of a). fold l.
    eexists _, _. split; [reflexivity|].
    pose proof (matching_partition (with_max_file_size a m1) _ _ Hl) as P1.
    pose proof (matching_partition (with_max_file_size a m2) _ _ Hl) as P2.
    pose proof (filter_length_le _ _ l
                  (fun c => selected_larger a m1 m2 (exts_of a) c Hm)) as L1.
    pose proof (filter_length_le _ _ l
                  (fun c => oversized_smaller a m1 m2 (exts_of a) c Hm)) as L2.
    pose proof (Zsum_filter_le _ _ (fun c => token_count (snd c)) l
                  (fun c => selected_larger a m1 m2 (exts_of a) c Hm)
                  (fun c => token_count_nonneg (snd c))) as L3.
    unfold after_walk, zero. cbn [total_tokens total_files skipped_files].
    repeat split; lia.
Qed.

(** ** Grouping by thousands *)

Lemma concat_split_drop s :
  String.concat "" (Str.split "," s) = drop_commas s.
Proof.
  induction s as [|c s IH]; simpl; [reflexivity|].
  pose proof (split_not_nil s) as Hne.
  destruct (Ascii.eqb c ",").
  - destruct (Str.split "," s) as [|x xs]; [congruence|]. exact IH.
  - destruct (Str.split "," s) as [|x xs]; [congruence|].
    rewrite <- IH. destruct xs; reflexivity.
Qed.

Lemma decimal_not_empty n : 0 <= n -> Fmt.decimal n <> "".
Proof.
  intros H. unfold Fmt.decimal. destruct n as [|p|p]; [discriminate| |lia].
  simpl. destruct (Pos.to_uint p); simpl; try discriminate.
Qed.

(** The groups that [insert_commas] leaves between its commas: the first
    takes what is left over, the others three characters each. *)
Lemma insert_commas_groups s :
  has_comma s = false ->
  s <> "" ->
  exists g gs,
    Str.split "," (Fmt.insert_commas s) = g :: gs
    /\ Str.len g = (Str.len s - 1) mod 3 + 1
    /\ Forall (fun x => Str.len x = 3) gs.
Proof using.
  clear encode. unfold has_comma. induction s as [|c s IH]; [congruence|].
  cbn [list_ascii_of_string existsb]. intros H _.
  apply orb_false_elim in H as [Hc Hs].
  cbn [Fmt.insert_commas].
  destruct s as [|c' s'].
  - exists (String c ""), []. simpl. rewrite Hc. auto.
  - destruct (IH Hs) as (g & gs & E & Hg & Hgs); [discriminate|].
    set (rest := String c' s') in *.
    assert (Hpos : 0 < Str.len rest) by (unfold rest, Str.len; simpl; lia).
    assert (Hlen : Str.len (String c rest) = Str.len rest + 1)
      by (unfold Str.len; simpl; lia).
    apply Z.ltb_lt in Hpos as Hposb. rewrite Hposb. cbn [andb].
    destruct (Z.eqb_spec (Str.len rest mod 3) 0) as [Hz|Hz].
    + exists (String c ""), (g :: gs).
      cbn [Str.split]. rewrite Hc. cbn [Ascii.eqb].
      change (Ascii.eqb "," ",") with true. cbv iota. rewrite E.
      split; [reflexivity|]. split.
      * rewrite Hlen. change (Str.len (String c "")) with 1.
        Z.to_euclidean_division_equations. lia.
      * constructor; [|exact Hgs]. rewrite Hg.
        Z.to_euclidean_division_equations. lia.
    + exists (String c g), gs.
      cbn [Str.split]. rewrite Hc, E.
      split; [reflexivity|]. split; [|exact Hgs].
      rewrite Hlen.
      assert (Hcg : Str.len (String c g) = Str.len g + 1)
        by (unfold Str.len; simpl; lia).
      rewrite Hcg, Hg. Z.to_euclidean_division_equations. lia.
Qed.

(** X13.  The count is printed in groups separated by commas: the first
    group has one to three digits, every other group has exactly three,
    and the groups put together are the digits of the count. *)
Theorem thousands_groups_of_three n :
  0 <= n ->
  exists g gs,
    Str.split "," (Fmt.thousands n) = g :: gs
    /\ 1 <= Str.len g <= 3
    /\ Forall (fun x => Str.len x = 3) gs
    /\ String.concat "" (g :: gs) = Fmt.decimal n.
Proof using.
  clear encode. intros Hn.
  assert (E : Fmt.thousands n = Fmt.insert_commas (Fmt.decimal n)).
  { unfold Fmt.thousands. destruct (Z.ltb_spec n 0); [lia|reflexivity]. }
  destruct (insert_commas_groups (Fmt.decimal n)
              (decimal_nonneg_no_comma n Hn) (decimal_not_empty n Hn))
    as (g & gs & Hs & Hg & Hgs).
  exists g, gs. rewrite E, Hs. split; [reflexivity|]. split; [|split].
  - rewrite Hg. Z.to_euclidean_division_equations. lia.
  - exact Hgs.
  - rewrite <- Hs, concat_split_drop.
    apply drop_insert_commas, decimal_nonneg_no_comma, Hn.
Qed.

End TokenPricer.

(** * Examples: the theorems at work on a small tree *)


(** The run over [locked_tree] with the default arguments. *)
Lemma locked_run :
  main char_tokens project_args (Some locked_tree) empty_world
  = Done (mktotals 13 1 0)
      (mkworld (summary (mktotals 13 1 0)) [["proj"; "a.py"]]).
Proof. vm_compute. reflexivity. Qed.

(** The run over [broken_tree] with the default arguments. *)
Lemma broken_quiet_run :
  main char_tokens project_args (Some broken_tree) empty_world
  = Uncaught "OSError" (mkworld [] [["proj"; "a.py"]]).
Proof. vm_compute. reflexivity. Qed.

(** C3, as stated, fails in three ways.  A small [.py] file under a
    subdirectory that cannot be listed is under the directory and is
    never opened.  When [stat] raises on a matching file the run dies and
    the matching files after it are never opened.  And a matching file
    that is not UTF-8 is opened, but no token comes of it. *)
Lemma tokenized_files_counterexample :
  (In ["proj"; "private"; "secret.py"]
      (map fst (filter (eligible project_args (exts_of project_args))
                  (all_files_under (root_of project_args) locked_tree)))
   /\ ~ In ["proj"; "private"; "secret.py"]
          (opened (world_of (main char_tokens project_args (Some locked_tree)
                               empty_world))))
  /\ (In ["proj"; "b.py"]
         (map fst (filter (eligible project_args (exts_of project_args))
                     (all_files_under (root_of project_args) broken_tree)))
      /\ ~ In ["proj"; "b.py"]
             (opened (world_of (main char_tokens project_args
                                  (Some broken_tree) empty_world))))
  /\ (In (["proj"; "sub"; "c.py"], binary_py)
         (filter (eligible project_args (exts_of project_args))
            (all_files_under (root_of project_args) project))
      /\ (forall w, exists w',
             count_tokens_in_file char_tokens ["proj"; "sub"; "c.py"]
               binary_py w
             = Done 0 w')
      /\ forall text, content binary_py <> inr text).
Proof.
  rewrite locked_run, broken_quiet_run. cbn [world_of opened].
  split; [|split]; split.
  - vm_compute. auto.
  - intros [H|[]]. discriminate.
  - vm_compute. auto.
  - intros [H|[]]. discriminate.
  - vm_compute. auto 10.
  - split; [|discriminate].
    intros w. rewrite count_tokens_in_file_spec. eexists. reflexivity.
Qed.

(** Paths as pathlib spells them: a trailing slash, a leading [./] and
    doubled slashes leave no trace, and the path without parts is a dot. *)
Lemma path_spelling :
  str (Path_of "proj/") = "proj"
  /\ str (joinpath (Path_of "proj/") "a.py") = "proj/a.py"
  /\ str (Path_of "./a.py") = "a.py"
  /\ str (joinpath (Path_of ".") "a.py") = "a.py"
  /\ str (Path_of ".") = "."
  /\ str (Path_of "a//b/./c") = "a/b/c"
  /\ str (joinpath (Path_of "/") "a.py") = "/a.py"
  /\ str (Path_of "//srv/x") = "//srv/x"
  /\ str (Path_of "///srv/x") = "/srv/x".
Proof. repeat split. Qed.

(** A name too long for the filesystem: [stat] raises, [is_file] raises
    it again, and the run ends with nothing printed. *)
Lemma name_too_long_run :
  main char_tokens (default_args "x")
    (Some (Unreachable "x" "[Errno 36] File name too long")) empty_world
  = Uncaught "[Errno 36] File name too long" empty_world.
Proof. reflexivity. Qed.

(** A directory that cannot be listed, named on the command line: the
    walk drops the error and the summary shows nothing. *)
Lemma unlisted_root_run :
  main char_tokens (default_args "x")
    (Some (Unlisted "x" [File "a.py" small_py])) empty_world
  = Done zero (mkworld (summary zero) []).
Proof. vm_compute. reflexivity. Qed.

(** The scenario of the specification: a small [.py] file and a [.md]
    file of 2,000,000 bytes, default settings. *)
Lemma scenario_run :
  main char_tokens (default_args "d")
    (Some (Dir "d" [File "f.py" small_py; File "notes.md" big_md])) empty_world
  = Done (mktotals 13 1 1)
      (mkworld
         [ nl ++ "Summary:";
           "Total files processed: 1";
           "Files skipped (too large): 1";
           "Total: 13 tokens (≈$0.00 at $3/1M tokens)" ]
         [["d"; "f.py"]]).
Proof. vm_compute. reflexivity. Qed.

(** A matching entry on which [stat] raises ends the run where it stands:
    the files before it were handled, no summary is printed. *)
Lemma dangling_link_aborts :
  main char_tokens project_verbose
    (Some (Dir "proj" [ File "a.py" small_py; File "gone.py" dangling_py;
                        File "b.py" small_py ])) empty_world
  = Uncaught "OSError"
      (mkworld ["proj/a.py: 13 tokens (≈$0.00 at $3/1M tokens)"]
         [["proj"; "a.py"]]).
Proof. vm_compute. reflexivity. Qed.

(** The run over [project] with the default arguments. *)
Lemma project_run :
  main char_tokens project_args (Some project) empty_world
  = Done (mktotals 25 3 1)
      (mkworld
         ("Error processing proj/sub/c.py: 'utf-8' codec can't decode byte 0xff in position 0"
            :: summary (mktotals 25 3 1))
         [["proj"; "a.py"]; ["proj"; "limit.txt"]; ["proj"; "sub"; "c.py"]]).
Proof. vm_compute. reflexivity. Qed.

Lemma processed_plus_skipped_is_matching_witness :
  main char_tokens project_args (Some project) empty_world
  = Done (mktotals 25 3 1)
      (mkworld
         ("Error processing proj/sub/c.py: 'utf-8' codec can't decode byte 0xff in position 0"
            :: summary (mktotals 25 3 1))
         [["proj"; "a.py"]; ["proj"; "limit.txt"]; ["proj"; "sub"; "c.py"]])
  /\ 3 + 1
     = Z.of_nat
         (List.length
            (filter (matches (exts_of project_args))
               (files_under (root_of project_args) project))).
Proof.
  split; [exact project_run|].
  exact (proj1 (processed_plus_skipped_is_matching char_tokens project_args
                  "proj" _ empty_world _ _ project_run)).
Defined.

Lemma tokenized_files_are_the_eligible_ones_witness :
  let found := files_under (root_of project_args) project in
  exists visited,
    [["proj"; "a.py"]; ["proj"; "limit.txt"]; ["proj"; "sub"; "c.py"]]
    = ([] ++ map fst visited)%list
    /\ Permutation visited
         (filter (eligible project_args (exts_of project_args)) found)
    /\ (forall p, In p (map fst visited) <->
                  exists f, In (p, f) found
                            /\ In (suffix p) (exts_of project_args)
                            /\ exceeds project_args (p, f) = false)
    /\ (forall c, In c found ->
                  In c (all_files_under (root_of project_args) project))
    /\ (listable project = true ->
        found = all_files_under (root_of project_args) project)
    /\ 25 = Zsum (map (fun c => token_count char_tokens (snd c)) visited)
    /\ (forall c, In c visited ->
                  match content (snd c) with
                  | inr text =>
                      match char_tokens text with
                      | inr tokens =>
                          token_count char_tokens (snd c)
                          = Z.of_nat (List.length tokens)
                      | inl _ => token_count char_tokens (snd c) = 0
                      end
                  | inl _ => token_count char_tokens (snd c) = 0
                  end).
Proof.
  exact (tokenized_files_are_the_eligible_ones char_tokens project_args
           "proj" _ empty_world _ _ project_run).
Defined.

(** A file of exactly 1,048,576 bytes is tokenized; one of 2,000,000 bytes
    is skipped and not opened. *)
Lemma size_threshold_is_inclusive_witness :
  (exists out,
      main_walk_file char_tokens project_args (exts_of project_args) ["proj"]
        ("limit.txt", exact_txt) zero empty_world
      = Done (mktotals 12 1 0) (mkworld out [["proj"; "limit.txt"]]))
  /\ main_walk_file char_tokens project_verbose (exts_of project_verbose)
       ["proj"] ("b.md", big_md) zero empty_world
     = Done (mktotals 0 0 1)
         (mkworld ["Skipped proj/b.md: File too large"] []).
Proof.
  split.
  - apply (proj1 (proj2
             (size_threshold_is_inclusive char_tokens project_args
                (exts_of project_args) ["proj"] "limit.txt" "limit.txt"
                exact_txt 1048576 zero empty_world eq_refl eq_refl))).
    vm_compute. discriminate.
  - apply (proj2 (proj2
             (size_threshold_is_inclusive char_tokens project_verbose
                (exts_of project_verbose) ["proj"] "b.md" "b.md"
                big_md 2000000 zero empty_world eq_refl eq_refl))).
    reflexivity.
Defined.

(** A file that is not UTF-8 gives zero tokens and one line of output. *)
Lemma read_failure_is_caught_witness :
  count_tokens_in_file char_tokens ["proj"; "sub"; "c.py"] binary_py empty_world
  = Done 0
      (mkworld
         ["Error processing proj/sub/c.py: 'utf-8' codec can't decode byte 0xff in position 0"]
         [["proj"; "sub"; "c.py"]])
  /\ for_each [("c.py", binary_py); ("x.bin", small_py)]
       (main_walk_file char_tokens project_verbose (exts_of project_verbose)
          ["proj"; "sub"]) zero empty_world
     = for_each [("x.bin", small_py)]
         (main_walk_file char_tokens project_verbose (exts_of project_verbose)
            ["proj"; "sub"]) (mktotals 0 1 0)
         (mkworld
            ["Error processing proj/sub/c.py: 'utf-8' codec can't decode byte 0xff in position 0";
             "proj/sub/c.py: 0 tokens (≈$0.00 at $3/1M tokens)"]
            [["proj"; "sub"; "c.py"]]).
Proof.
  pose proof (read_failure_is_caught char_tokens project_verbose
                (exts_of project_verbose) ["proj"; "sub"] "c.py" "c.py"
                binary_py 5
                "'utf-8' codec can't decode byte 0xff in position 0"
                [("x.bin", small_py)] zero empty_world eq_refl eq_refl)
    as H.
  assert (Hle : 5 <= max_file_size project_verbose)
    by (vm_compute; discriminate).
  destruct (H Hle eq_refl) as (H1 & H2 & _).
  split; [exact (H1 _ _)|exact H2].
Defined.

(** A file named on the command line with a suffix outside the default
    extension list is tokenized all the same. *)
Lemma named_file_ignores_extensions_witness :
  Str.mem (suffix (root_of (default_args "proj/sub/x.bin")))
    (exts_of (default_args "proj/sub/x.bin")) = false
  /\ exists out,
      main char_tokens (default_args "proj/sub/x.bin")
        (Some (File "x.bin" small_py)) empty_world
      = Done (mktotals 13 1 0) (mkworld out [["proj"; "sub"; "x.bin"]]).
Proof.
  split; [reflexivity|].
  apply (proj2
           (named_file_ignores_extensions char_tokens
              (default_args "proj/sub/x.bin") ".rs" "x.bin" small_py 13
              empty_world eq_refl
              ltac:(vm_compute; discriminate))).
Defined.

(** [--extensions py,js] and [--extensions .py,.js] on the example tree. *)
Lemma bare_extensions_equal_dotted_witness :
  Str.join "," ["py"; "js"] = "py,js"
  /\ Str.join "," (map dotted ["py"; "js"]) = ".py,.js"
  /\ main char_tokens (with_extensions project_verbose (Str.join "," ["py"; "js"]))
       (Some project) empty_world
     = main char_tokens
         (with_extensions project_verbose (Str.join "," (map dotted ["py"; "js"])))
         (Some project) empty_world.
Proof.
  split; [reflexivity|]. split; [reflexivity|].
  apply (proj1 (proj2
           (bare_extensions_equal_dotted char_tokens project_verbose
              ["py"; "js"] (Some project) empty_world
              ltac:(repeat constructor)))).
Defined.

Lemma project_same_tree : same_tree project project_reordered.
Proof.
  apply (same_Dir "proj" _
           [ File "a.py" small_py;
             Dir "sub" [ File "x.bin" small_py; File "c.py" binary_py;
                         File ".py" small_py; File "a.tar.gz" small_py ];
             File "b.md" big_md; File "UPPER.PY" small_py;
             File "limit.txt" exact_txt ]).
  - repeat constructor.
    apply (same_Dir "sub" _
             [ File "c.py" binary_py; File "x.bin" small_py;
               File ".py" small_py; File "a.tar.gz" small_py ]).
    + repeat constructor.
    + apply perm_swap.
  - apply perm_swap.
Qed.

(** The example tree and its reordering give the same totals, also when
    something was printed before. *)
Lemma totals_are_deterministic_witness :
  totals_of (main char_tokens project_verbose (Some project) empty_world)
  = totals_of (main char_tokens project_verbose (Some project_reordered)
                 (mkworld ["earlier output"] [])).
Proof.
  exact (totals_are_deterministic char_tokens project_verbose
           (Some project) (Some project_reordered) empty_world
           (mkworld ["earlier output"] []) project_same_tree).
Defined.

(** No file has the suffix [.tar.gz]. *)
Lemma suffix_is_after_the_last_dot_witness :
  suffix ["proj"; "sub"; "a.tar.gz"] <> ".tar.gz"
  /\ main_walk_file char_tokens project_args [".tar.gz"] ["proj"; "sub"]
       ("a.tar.gz", small_py) zero empty_world
     = Done zero empty_world.
Proof.
  pose proof (suffix_is_after_the_last_dot char_tokens)
    as (_ & _ & _ & _ & _ & H1 & H2).
  split.
  - apply H1. reflexivity.
  - apply H2. reflexivity.
Defined.

(** * Examples for the further properties *)

(** The stand-in tokenizer refuses a special token; the file counts 0. *)
Lemma tokenizer_failure_is_caught_witness :
  count_tokens_in_file char_tokens ["proj"; "t.txt"] special_txt empty_world
  = Done 0
      (mkworld
         ["Error processing proj/t.txt: Encountered text corresponding to disallowed special token"]
         [["proj"; "t.txt"]]).
Proof.
  exact (tokenizer_failure_is_caught char_tokens ["proj"; "t.txt"] special_txt
           "<|endoftext|>"
           "Encountered text corresponding to disallowed special token"
           empty_world eq_refl eq_refl).
Defined.

Lemma file_run_counts_one_witness :
  exists t out visited,
    main char_tokens (default_args "proj/a.py") (Some (File "a.py" small_py))
      empty_world
    = Done t (mkworld ([] ++ out ++ summary t) ([] ++ visited))
    /\ total_files t + skipped_files t = 1
    /\ ((visited = [root_of (default_args "proj/a.py")] /\ total_files t = 1)
        \/ (visited = [] /\ skipped_files t = 1 /\ total_tokens t = 0)).
Proof.
  exact (file_run_counts_one char_tokens (default_args "proj/a.py")
           (Some (File "a.py" small_py)) empty_world eq_refl).
Defined.

Lemma total_tokens_is_the_sum_witness :
  25 = Zsum (map (fun c => token_count char_tokens (snd c))
               (filter (eligible project_args (exts_of project_args))
                  (files_under (root_of project_args) project)))
  /\ 0 <= 25.
Proof.
  exact (total_tokens_is_the_sum char_tokens project_args "proj" _
           empty_world _ _ project_run).
Defined.

Lemma opened_files_are_the_processed_ones_witness :
  Z.of_nat (List.length
              [["proj"; "a.py"]; ["proj"; "limit.txt"]; ["proj"; "sub"; "c.py"]])
  = Z.of_nat (List.length (opened empty_world)) + 3.
Proof.
  exact (opened_files_are_the_processed_ones char_tokens project_args
           (Some project) empty_world _ _ project_run).
Defined.

(** The run over [broken_tree] with [--verbose]. *)
Lemma broken_run :
  main char_tokens project_verbose (Some broken_tree) empty_world
  = Uncaught "OSError"
      (mkworld ["proj/a.py: 13 tokens (≈$0.00 at $3/1M tokens)"]
         [["proj"; "a.py"]]).
Proof. vm_compute. reflexivity. Qed.

Lemma run_dies_at_first_failing_stat_witness :
  (lookup_fails (Some broken_tree) = Some "OSError"
   /\ mkworld ["proj/a.py: 13 tokens (≈$0.00 at $3/1M tokens)"]
        [["proj"; "a.py"]]
      = empty_world)
  \/ (lookup_fails (Some broken_tree) = None
      /\ exists before c after,
          candidates (root_of project_verbose) (Some broken_tree)
          = (before ++ c :: after)%list
          /\ Str.mem (suffix (fst c)) (exts_of project_verbose) = true
          /\ st_size (snd c) = None
          /\ existsb (fatal (exts_of project_verbose)) before = false
          /\ "OSError" = "OSError"
          /\ mkworld ["proj/a.py: 13 tokens (≈$0.00 at $3/1M tokens)"]
               [["proj"; "a.py"]]
             = mkworld
                 (stdout empty_world
                  ++ flat_map (lines char_tokens project_verbose
                                 (exts_of project_verbose)) before)
                 (opened empty_world
                  ++ map fst (filter (selected project_verbose
                                        (exts_of project_verbose)) before))
          /\ ~ In summary_header
                 (flat_map (lines char_tokens project_verbose
                              (exts_of project_verbose)) before)).
Proof.
  exact (run_dies_at_first_failing_stat char_tokens project_verbose
           (Some broken_tree) empty_world _ _ broken_run).
Defined.

Lemma summary_is_printed_once_and_last_witness :
  exists out,
    ("Error processing proj/sub/c.py: 'utf-8' codec can't decode byte 0xff in position 0"
       :: summary (mktotals 25 3 1))
    = (stdout empty_world ++ out ++ summary (mktotals 25 3 1))%list
    /\ ~ In summary_header out.
Proof.
  exact (summary_is_printed_once_and_last char_tokens project_args
           (Some project) empty_world _ _ project_run).
Defined.

Lemma quiet_run_prints_errors_and_summary_witness :
  ("Error processing proj/sub/c.py: 'utf-8' codec can't decode byte 0xff in position 0"
     :: summary (mktotals 25 3 1))
  = (stdout empty_world
     ++ flat_map (fun c => diagnostic char_tokens (fst c) (snd c))
          (filter (eligible project_args (exts_of project_args))
             (candidates (root_of project_args) (Some project)))
     ++ summary (mktotals 25 3 1))%list.
Proof.
  exact (quiet_run_prints_errors_and_summary char_tokens project_args "proj" _
           empty_world _ _ eq_refl project_run).
Defined.

(** [py,md,py] and [.md,.py] name the same set of extensions. *)
Lemma extensions_are_used_as_a_set_witness :
  main char_tokens (with_extensions project_verbose "py,md,py") (Some project)
    empty_world
  = main char_tokens (with_extensions project_verbose ".md,.py") (Some project)
      empty_world.
Proof.
  apply (extensions_are_used_as_a_set char_tokens project_verbose
           "py,md,py" ".md,.py" (Some project) empty_world).
  intros x. cbv. tauto.
Defined.

(** The default of [--extensions] is parsed back to the default list. *)
Lemma parse_join_round_trip_witness :
  parse_extensions (extensions (default_args "proj")) = get_default_extensions.
Proof.
  apply (parse_join_round_trip get_default_extensions).
  - discriminate.
  - repeat constructor.
  - repeat constructor.
Defined.

Lemma unmatched_files_are_left_alone_witness :
  main char_tokens (default_args "d") (Some unmatched_tree) empty_world
  = Done zero (mkworld (stdout empty_world ++ summary zero) (opened empty_world)).
Proof.
  apply (unmatched_files_are_left_alone char_tokens (default_args "d")
           "d" _ empty_world).
  intros p f H. simpl in H.
  destruct H as [H|[H|[]]]; injection H as <- _; reflexivity.
Defined.

(** The run over [project] with a threshold of 100 bytes. *)
Lemma small_threshold_run :
  main char_tokens (with_max_file_size project_args 100) (Some project)
    empty_world
  = Done (mktotals 13 2 2)
      (mkworld
         ("Error processing proj/sub/c.py: 'utf-8' codec can't decode byte 0xff in position 0"
            :: summary (mktotals 13 2 2))
         [["proj"; "a.py"]; ["proj"; "sub"; "c.py"]]).
Proof. vm_compute. reflexivity. Qed.

Lemma larger_threshold_processes_more_witness :
  exists t2 w2,
    main char_tokens (with_max_file_size project_args 1048576) (Some project)
      empty_world
    = Done t2 w2
    /\ 2 <= total_files t2
    /\ skipped_files t2 <= 2
    /\ 13 <= total_tokens t2
    /\ 2 + 2 = total_files t2 + skipped_files t2.
Proof.
  apply (larger_threshold_processes_more char_tokens project_args 100 1048576
           (Some project) empty_world _ _ ltac:(lia) small_threshold_run).
Defined.

Lemma thousands_groups_of_three_witness :
  exists g gs,
    Str.split "," (Fmt.thousands 1234567) = g :: gs
    /\ 1 <= Str.len g <= 3
    /\ Forall (fun x => Str.len x = 3) gs
    /\ String.concat "" (g :: gs) = Fmt.decimal 1234567.
Proof.
  exact (thousands_groups_of_three 1234567 ltac:(lia)).
Defined.
